(** * Gemini_in_a_terminal: the terminal front-end's command router,
      typewriter stream coordinator, command history and Tab completion.

    The development embeds [App.tsx] (the component holding all of the
    state) as explicit state passing over a record of the React state
    cells and refs.  Strings are sequences of code units; the model keeps
    to the 8-bit range (Latin-1), which covers every literal the code
    compares against.  Lengths and slice positions are natural numbers;
    the history cursor is an integer because the code stores -1 in it. *)

From Stdlib Require Import String Ascii List ZArith QArith Lia Bool Arith.
Import ListNotations.
Open Scope string_scope.
Open Scope nat_scope.
Set Warnings "-register-all".

(** ** JavaScript string primitives used by the component *)

Module Js.

(** [s.slice(0, n)] for [0 <= n]. *)
Fixpoint sliceTo (n : nat) (s : string) : string :=
  match n, s with
  | S n', String c s' => String c (sliceTo n' s')
  | _, _ => EmptyString
  end.

(** [s.slice(n)] for [0 <= n]. *)
Fixpoint sliceFrom (n : nat) (s : string) : string :=
  match n, s with
  | S n', String _ s' => sliceFrom n' s'
  | _, _ => s
  end.

(** White space as [String.prototype.trim] sees it, within Latin-1:
    TAB, LF, VT, FF, CR, SPACE and NBSP. *)
Definition isWhiteSpace (c : ascii) : bool :=
  let n := nat_of_ascii c in
  ((9 <=? n) && (n <=? 13)) || (n =? 32) || (n =? 160).

Fixpoint trimStart (s : string) : string :=
  match s with
  | EmptyString => EmptyString
  | String c s' => if isWhiteSpace c then trimStart s' else s
  end.

Fixpoint trimEnd (s : string) : string :=
  match s with
  | EmptyString => EmptyString
  | String c s' =>
      match trimEnd s' with
      | EmptyString => if isWhiteSpace c then EmptyString else String c EmptyString
      | t => String c t
      end
  end.

(** [s.trim()] *)
Definition trim (s : string) : string := trimEnd (trimStart s).

(** Lower-casing of one Latin-1 code unit: A-Z and the accented capitals
    (U+00C0..U+00DE except the multiplication sign) move up by 32. *)
Definition lowerChar (c : ascii) : ascii :=
  let n := nat_of_ascii c in
  if ((65 <=? n) && (n <=? 90))
     || ((192 <=? n) && (n <=? 222) && negb (n =? 215))
  then ascii_of_nat (n + 32) else c.

(** [s.toLowerCase()] *)
Fixpoint toLowerCase (s : string) : string :=
  match s with
  | EmptyString => EmptyString
  | String c s' => String (lowerChar c) (toLowerCase s')
  end.

(** [s.startsWith(p)] *)
Definition startsWith (p s : string) : bool := String.prefix p s.

(** The pieces of [s] between the characters satisfying [isSep], empty
    pieces included; the empty string gives one empty piece. *)
Fixpoint splitOn (isSep : ascii -> bool) (s : string) : list string :=
  match s with
  | EmptyString => [EmptyString]
  | String c s' =>
      if isSep c then EmptyString :: splitOn isSep s'
      else match splitOn isSep s' with
           | piece :: rest => String c piece :: rest
           | [] => [String c EmptyString]
           end
  end.

(** [s.split(sep)] for a one-character separator. *)
Definition split (sep : ascii) (s : string) : list string :=
  splitOn (Ascii.eqb sep) s.

(** [parts.join(sep)] *)
Definition join (sep : string) (parts : list string) : string :=
  String.concat sep parts.

(** A string used as a condition is true when it is not empty. *)
Definition truthy (s : string) : bool := negb (String.length s =? 0).

Definition newline : string := String (ascii_of_nat 10) EmptyString.

Definition quote : string := String (ascii_of_nat 34) EmptyString.

End Js.

(** ** The interface of [utils/fileSystem] as the component uses it *)

(** What [executeFileSystemCommand] returns when it recognises the command:
    [{ output: string, newPath?: string }]; [null] is [None] at the call. *)
Record FsResult : Type := { output : string; newPath : option string }.

(** ** The virtual filesystem *)

Module Vfs.

(** Modelled from the spec: [utils/fileSystem.ts] (the tree,
    [executeFileSystemCommand] and [getFileSystemCompletions]) is imported
    by the component but is not among the sources.  The definitions below
    follow sections 3, 4.1 and 6 of the specification: a rooted tree of
    directories and files, lexical resolution of [.] and [..] with [..]
    at the root staying at the root, resolution checked by walking the
    tree, and the five verbs [ls], [cd], [cat], [pwd], [whoami].  The
    rendering of listings and error lines, the [whoami] answer and the
    home directory are left to the caller as parameters. *)
Inductive FileSystemNode : Type :=
| FileNode (name : string) (content : string)
| DirectoryNode (name : string) (children : list FileSystemNode).

Inductive FsError : Type := NotFound | NotADirectory | IsADirectory.

Definition nodeName (node : FileSystemNode) : string :=
  match node with FileNode name _ => name | DirectoryNode name _ => name end.

Definition isDirectory (node : FileSystemNode) : bool :=
  match node with DirectoryNode _ _ => true | FileNode _ _ => false end.

Fixpoint findChild (name : string) (children : list FileSystemNode)
  : option FileSystemNode :=
  match children with
  | [] => None
  | node :: rest =>
      if String.eqb (nodeName node) name then Some node else findChild name rest
  end.

(** Modelled from the spec: the walk of [utils/fileSystem.ts] over named
    children (section 3); a missing child is [NotFound], a descent into a
    file is [NotADirectory]. *)
Fixpoint walk (node : FileSystemNode) (segments : list string)
  : FsError + FileSystemNode :=
  match segments with
  | [] => inr node
  | seg :: rest =>
      match node with
      | FileNode _ _ => inl NotADirectory
      | DirectoryNode _ children =>
          match findChild seg children with
          | None => inl NotFound
          | Some child => walk child rest
          end
      end
  end.

(** Modelled from the spec: the segments of a slash-delimited path
    (section 3, Path); empty segments are dropped. *)
Definition segmentsOf (path : string) : list string :=
  filter Js.truthy (Js.split "/"%char path).

(** Modelled from the spec: the normalised absolute path of a list of
    segments, with no trailing slash except for the root. *)
Definition pathOf (segments : list string) : string :=
  "/" ++ Js.join "/" segments.

(** Modelled from the spec: one segment of the argument of
    [resolvePath]; [..] at the root leaves the root (section 4.1, edge-case
    policy). *)
Definition applySegment (stack : list string) (seg : string) : list string :=
  if String.eqb seg "." then stack
  else if String.eqb seg ".." then removelast stack
  else (stack ++ [seg])%list.

(** Modelled from the spec: an argument with a leading slash is resolved
    from the root, any other from the current path. *)
Definition resolveSegments (currentPath argument : string) : list string :=
  fold_left applySegment (segmentsOf argument)
    (if Js.startsWith "/" argument then [] else segmentsOf currentPath).

(** Modelled from the spec: [resolvePath] of [utils/fileSystem.ts]
    together with the node it reaches. *)
Definition resolveNode (root : FileSystemNode) (currentPath argument : string)
  : FsError + (string * FileSystemNode) :=
  let segments := resolveSegments currentPath argument in
  match walk root segments with
  | inl e => inl e
  | inr node => inr (pathOf segments, node)
  end.

(** Modelled from the spec: [resolvePath(currentPath, argument)] of
    section 4.1, failing with [NotFound] or [NotADirectory]. *)
Definition resolvePath (root : FileSystemNode) (currentPath argument : string)
  : FsError + string :=
  match resolveNode root currentPath argument with
  | inl e => inl e
  | inr (path, _) => inr path
  end.

(** Modelled from the spec: whitespace tokenisation of a command line;
    runs of blanks collapse (section 4.1, edge-case policy). *)
Definition tokens (commandLine : string) : list string :=
  filter Js.truthy (Js.splitOn Js.isWhiteSpace commandLine).

Section Execute.

Variable homePath : string.
Variable whoamiOutput : string.
Variable renderListing : list (string * bool) -> string.
Variable renderError : string -> string -> FsError -> string.

Definition failure (verb argument : string) (e : FsError) : FsResult :=
  {| output := renderError verb argument e; newPath := None |}.

(** Modelled from the spec: [executeFileSystemCommand] of
    [utils/fileSystem.ts], the [execute] of section 4.1: [None] for a verb
    that is not one of the five, the rendered output otherwise, and the new
    path for a successful [cd]; [cd] without an argument goes home.  Where
    the specification is silent ([ls] of a file) the answer is
    [NotADirectory]. *)
Definition execute (root : FileSystemNode) (commandLine currentPath : string)
  : option FsResult :=
  match tokens commandLine with
  | [] => None
  | verb :: args =>
      let argument := hd "" args in
      if String.eqb verb "pwd" then
        Some {| output := currentPath; newPath := None |}
      else if String.eqb verb "whoami" then
        Some {| output := whoamiOutput; newPath := None |}
      else if String.eqb verb "ls" then
        match resolveNode root currentPath (hd "." args) with
        | inl e => Some (failure verb (hd "." args) e)
        | inr (_, FileNode _ _) => Some (failure verb (hd "." args) NotADirectory)
        | inr (_, DirectoryNode _ children) =>
            Some {| output :=
                      renderListing
                        (map (fun child => (nodeName child, isDirectory child))
                             children);
                    newPath := None |}
        end
      else if String.eqb verb "cd" then
        match resolveNode root currentPath (hd homePath args) with
        | inl e => Some (failure verb (hd homePath args) e)
        | inr (_, FileNode _ _) => Some (failure verb (hd homePath args) NotADirectory)
        | inr (path, DirectoryNode _ _) =>
            Some {| output := ""; newPath := Some path |}
        end
      else if String.eqb verb "cat" then
        match resolveNode root currentPath argument with
        | inl e => Some (failure verb argument e)
        | inr (_, DirectoryNode _ _) => Some (failure verb argument IsADirectory)
        | inr (_, FileNode _ content) =>
            Some {| output := content; newPath := None |}
        end
      else None
  end.

End Execute.

(** Modelled from the spec: [getFileSystemCompletions] of
    [utils/fileSystem.ts], the [complete] of section 4.1: the names of the
    children of the directory at [currentPath] that start with
    [partialName], in listing order. *)
Definition complete (root : FileSystemNode) (partialName currentPath : string)
  : list string :=
  match walk root (segmentsOf currentPath) with
  | inr (DirectoryNode _ children) =>
      filter (Js.startsWith partialName) (map nodeName children)
  | _ => []
  end.

(** The fixture of the specification's end-to-end scenarios:
    [/home/operator] holding [docs/] and [readme.txt]. *)
Definition fixture : FileSystemNode :=
  DirectoryNode ""
    [DirectoryNode "home"
       [DirectoryNode "operator"
          [DirectoryNode "docs" [FileNode "notes.txt" "notes"];
           FileNode "readme.txt" "read me"]]].

Definition fixtureListing (entries : list (string * bool)) : string :=
  Js.join Js.newline
    (map (fun entry : string * bool =>
            if snd entry then fst entry ++ "/" else fst entry) entries).

Definition fixtureError (verb argument : string) (e : FsError) : string :=
  verb ++ ": " ++ argument ++ ": "
  ++ match e with
     | NotFound => "No such file or directory"
     | NotADirectory => "Not a directory"
     | IsADirectory => "Is a directory"
     end.

Definition fixtureExecute : string -> string -> option FsResult :=
  execute "/home/operator" "root" fixtureListing fixtureError fixture.

Definition fixtureComplete : string -> string -> list string :=
  complete fixture.

End Vfs.

(** ** The component: state cells, refs and handlers of [App] *)

Module App.

Inductive Sender : Type := USER | AI | SYSTEM.

(** A message of the log.  The [id] and [timestamp] fields are derived from
    the clock and never read by the handlers; they are left out.  An absent
    [isStreaming] is [false]. *)
Record Message : Type :=
  { text : string; sender : Sender; isStreaming : bool }.

(** The state cells ([useState]) and refs ([useRef]) that the message
    handler, the key handler and the typewriter loop read or write.  The
    cells of the boot screen, theme, chat mode and mute button are not
    touched by them. *)
Record AppState : Type :=
  { currentPath : string;
    history : list string;
    historyIndex : Z;
    messages : list Message;
    inputValue : string;
    isProcessing : bool;
    shouldAutoScroll : bool;
    streamingBuffer : string;
    isNetworkStreaming : bool;
    isTypewriterActive : bool }.

Definition setCurrentPath (v : string) (st : AppState) : AppState :=
  {| currentPath := v; history := history st; historyIndex := historyIndex st;
     messages := messages st; inputValue := inputValue st;
     isProcessing := isProcessing st; shouldAutoScroll := shouldAutoScroll st;
     streamingBuffer := streamingBuffer st;
     isNetworkStreaming := isNetworkStreaming st;
     isTypewriterActive := isTypewriterActive st |}.

Definition setHistory (f : list string -> list string) (st : AppState) : AppState :=
  {| currentPath := currentPath st; history := f (history st);
     historyIndex := historyIndex st;
     messages := messages st; inputValue := inputValue st;
     isProcessing := isProcessing st; shouldAutoScroll := shouldAutoScroll st;
     streamingBuffer := streamingBuffer st;
     isNetworkStreaming := isNetworkStreaming st;
     isTypewriterActive := isTypewriterActive st |}.

Definition setHistoryIndex (v : Z) (st : AppState) : AppState :=
  {| currentPath := currentPath st; history := history st; historyIndex := v;
     messages := messages st; inputValue := inputValue st;
     isProcessing := isProcessing st; shouldAutoScroll := shouldAutoScroll st;
     streamingBuffer := streamingBuffer st;
     isNetworkStreaming := isNetworkStreaming st;
     isTypewriterActive := isTypewriterActive st |}.

Definition setMessages (f : list Message -> list Message) (st : AppState) : AppState :=
  {| currentPath := currentPath st; history := history st;
     historyIndex := historyIndex st;
     messages := f (messages st); inputValue := inputValue st;
     isProcessing := isProcessing st; shouldAutoScroll := shouldAutoScroll st;
     streamingBuffer := streamingBuffer st;
     isNetworkStreaming := isNetworkStreaming st;
     isTypewriterActive := isTypewriterActive st |}.

Definition setInputValue (v : string) (st : AppState) : AppState :=
  {| currentPath := currentPath st; history := history st;
     historyIndex := historyIndex st;
     messages := messages st; inputValue := v;
     isProcessing := isProcessing st; shouldAutoScroll := shouldAutoScroll st;
     streamingBuffer := streamingBuffer st;
     isNetworkStreaming := isNetworkStreaming st;
     isTypewriterActive := isTypewriterActive st |}.

Definition setIsProcessing (v : bool) (st : AppState) : AppState :=
  {| currentPath := currentPath st; history := history st;
     historyIndex := historyIndex st;
     messages := messages st; inputValue := inputValue st;
     isProcessing := v; shouldAutoScroll := shouldAutoScroll st;
     streamingBuffer := streamingBuffer st;
     isNetworkStreaming := isNetworkStreaming st;
     isTypewriterActive := isTypewriterActive st |}.

Definition setShouldAutoScroll (v : bool) (st : AppState) : AppState :=
  {| currentPath := currentPath st; history := history st;
     historyIndex := historyIndex st;
     messages := messages st; inputValue := inputValue st;
     isProcessing := isProcessing st; shouldAutoScroll := v;
     streamingBuffer := streamingBuffer st;
     isNetworkStreaming := isNetworkStreaming st;
     isTypewriterActive := isTypewriterActive st |}.

Definition setStreamingBuffer (v : string) (st : AppState) : AppState :=
  {| currentPath := currentPath st; history := history st;
     historyIndex := historyIndex st;
     messages := messages st; inputValue := inputValue st;
     isProcessing := isProcessing st; shouldAutoScroll := shouldAutoScroll st;
     streamingBuffer := v;
     isNetworkStreaming := isNetworkStreaming st;
     isTypewriterActive := isTypewriterActive st |}.

Definition setIsNetworkStreaming (v : bool) (st : AppState) : AppState :=
  {| currentPath := currentPath st; history := history st;
     historyIndex := historyIndex st;
     messages := messages st; inputValue := inputValue st;
     isProcessing := isProcessing st; shouldAutoScroll := shouldAutoScroll st;
     streamingBuffer := streamingBuffer st;
     isNetworkStreaming := v;
     isTypewriterActive := isTypewriterActive st |}.

Definition setIsTypewriterActive (v : bool) (st : AppState) : AppState :=
  {| currentPath := currentPath st; history := history st;
     historyIndex := historyIndex st;
     messages := messages st; inputValue := inputValue st;
     isProcessing := isProcessing st; shouldAutoScroll := shouldAutoScroll st;
     streamingBuffer := streamingBuffer st;
     isNetworkStreaming := isNetworkStreaming st;
     isTypewriterActive := v |}.

(** The state right after the boot screen. *)
Definition initialState : AppState :=
  {| currentPath := "/home/operator"; history := []; historyIndex := (-1)%Z;
     messages :=
       [{| text := "INITIALIZING ENDEAVOUR_OS COMPATIBILITY LAYER..." ++ Js.newline
                   ++ "CONNECTION ESTABLISHED." ++ Js.newline ++ "AWAITING INPUT...";
           sender := SYSTEM; isStreaming := false |}];
     inputValue := ""; isProcessing := false; shouldAutoScroll := true;
     streamingBuffer := ""; isNetworkStreaming := false;
     isTypewriterActive := false |}.

(** *** The typewriter loop *)

(** [newArr[newArr.length - 1]], when [lastIdx >= 0]. *)
Definition lastMessage (msgs : list Message) : option Message :=
  match length msgs with
  | 0 => None
  | S lastIdx => nth_error msgs lastIdx
  end.

(** The updater handed to [setMessages] by both branches of the loop:
    the last message is replaced by [f] of it when it is streaming. *)
Definition updateStreaming (f : Message -> Message) (prev : list Message)
  : list Message :=
  match lastMessage prev with
  | Some m => if isStreaming m then (removelast prev ++ [f m])%list else prev
  | None => prev
  end.

Definition appendText (chunk : string) (m : Message) : Message :=
  {| text := text m ++ chunk; sender := sender m; isStreaming := isStreaming m |}.

Definition stopStreaming (m : Message) : Message :=
  {| text := text m; sender := sender m; isStreaming := false |}.

(** SPEED CONTROL *)
Definition charsToTake (bufferLen : nat) : nat :=
  if 150 <? bufferLen then 3 else if 50 <? bufferLen then 2 else 1.

(** Which branch one run of the interval callback took. *)
Inductive TickResult : Type :=
| Revealed (chunk : string)
| Terminal
| Idle.

(** The callback of [setInterval(..., 20)].  The sound cue, the scroll
    adjustment and the refocus of the input are presentation only. *)
Definition tick (st : AppState) : AppState * TickResult :=
  if 0 <? String.length (streamingBuffer st) then
    let bufferLen := String.length (streamingBuffer st) in
    let chunk := Js.sliceTo (charsToTake bufferLen) (streamingBuffer st) in
    (setMessages (updateStreaming (appendText chunk))
       (setStreamingBuffer
          (Js.sliceFrom (charsToTake bufferLen) (streamingBuffer st)) st),
     Revealed chunk)
  else if negb (isNetworkStreaming st)
          && (String.length (streamingBuffer st) =? 0) then
    (setMessages (updateStreaming stopStreaming) (setIsProcessing false st),
     Terminal)
  else (st, Idle).

(** The effect installs the interval while [isProcessing] holds and the
    typewriter is active, and its cleanup removes it otherwise; so the
    timer runs the callback exactly in those states. *)
Definition intervalInstalled (st : AppState) : bool :=
  isProcessing st && isTypewriterActive st.

Definition onInterval (st : AppState) : AppState :=
  if intervalInstalled st then fst (tick st) else st.

(** *** The consumer of the remote stream *)

(** What the [catch] clause can receive. *)
Inductive Thrown : Type :=
| ErrorInstance (message : string)
| OtherValue.

Definition errorFragment (error : Thrown) : string :=
  Js.newline ++ "[ERROR: CONNECTION FAILED - "
  ++ match error with ErrorInstance message => message | OtherValue => "UNKNOWN" end
  ++ "]".

(** [streamingBuffer.current += chunk.text || ''] *)
Definition appendChunk (chunkText : option string) (st : AppState) : AppState :=
  setStreamingBuffer
    (streamingBuffer st ++ match chunkText with Some t => t | None => "" end) st.

Definition catchBlock (error : Thrown) (st : AppState) : AppState :=
  setStreamingBuffer (streamingBuffer st ++ errorFragment error) st.

Definition finallyBlock (st : AppState) : AppState :=
  setIsNetworkStreaming false st.

(** How the [try] block ends: the stream is exhausted, or the call or the
    iteration throws. *)
Inductive StreamEnd : Type :=
| StreamExhausted
| StreamThrows (error : Thrown).

(** How the promise of the handler settles. *)
Inductive Completion : Type :=
| Fulfilled
| Rejected (error : Thrown).

Definition endStream (ending : StreamEnd) (st : AppState) : AppState * Completion :=
  match ending with
  | StreamExhausted => (finallyBlock st, Fulfilled)
  | StreamThrows error => (finallyBlock (catchBlock error st), Fulfilled)
  end.

(** While the handler awaits the stream, chunk arrivals and timer firings
    interleave in any order. *)
Inductive StreamingEvent : Type :=
| ChunkArrives (chunkText : option string)
| IntervalFires.

Definition streamingStep (st : AppState) (ev : StreamingEvent) : AppState :=
  match ev with
  | ChunkArrives chunkText => appendChunk chunkText st
  | IntervalFires => onInterval st
  end.

Definition runStreaming (evs : list StreamingEvent) (st : AppState) : AppState :=
  fold_left streamingStep evs st.

(** [n] firings of the timer in a row. *)
Fixpoint ticks (n : nat) (st : AppState) : AppState :=
  match n with
  | 0 => st
  | S n' => ticks n' (onInterval st)
  end.

(** *** The message handler *)

(** What a handler asks of its collaborators besides writing state. *)
Inductive TimerAction : Type :=
| ShowSystemMessage (text : string)
| AutoLs (newDir : string)
| Reboot
| FocusInput.

Inductive Effect : Type :=
| PlayKeystrokeSound
| SetTimeout (action : TimerAction) (delay : nat)
| SendMessageToGeminiStream (userText : string).

Definition userMessage (userText : string) : Message :=
  {| text := userText; sender := USER; isStreaming := false |}.

Definition systemMessage (t : string) : Message :=
  {| text := t; sender := SYSTEM; isStreaming := false |}.

Definition aiPlaceholder : Message :=
  {| text := ""; sender := AI; isStreaming := true |}.

Definition push {A : Type} (x : A) (prev : list A) : list A := (prev ++ [x])%list.

(** 1. ADD TO HISTORY *)
Definition addToHistory (userText : string) (prev : list string) : list string :=
  let newHistory := push userText prev in
  if 50 <? length newHistory then skipn (length newHistory - 50) newHistory
  else newHistory.

Definition scavengerHuntText : string :=
  ">>> SCAVENGER HUNT INITIATED <<<" ++ Js.newline ++ Js.newline
  ++ "OBJECTIVE: Locate the encrypted reward file hidden within the filesystem."
  ++ Js.newline ++ Js.newline ++ "INSTRUCTIONS:" ++ Js.newline
  ++ "1. Use " ++ Js.quote ++ "ls" ++ Js.quote
  ++ " to list files in the current directory." ++ Js.newline
  ++ "2. Use " ++ Js.quote ++ "cd [folder_name]" ++ Js.quote
  ++ " to navigate folders." ++ Js.newline
  ++ "3. Use " ++ Js.quote ++ "cd .." ++ Js.quote
  ++ " to go back up one level." ++ Js.newline
  ++ "4. Use " ++ Js.quote ++ "cat [filename]" ++ Js.quote
  ++ " to read files." ++ Js.newline ++ Js.newline
  ++ "HINT: The prize is buried deep. Check system configurations or logs. "
  ++ "Beware of fake winning folders.".

Definition sudoSequence : list (string * nat) :=
  [("AUTHENTICATING ROOT...", 600);
   ("ACCESS GRANTED.", 1200);
   ("DELETING /bin...", 1800);
   ("DELETING /usr...", 2400);
   ("DELETING /etc...", 2900);
   ("CRITICAL ERROR: KERNEL PANIC. SYSTEM HALTED.", 3500)].

Definition rebootMessage : Message :=
  systemMessage ("SYSTEM REBOOT..." ++ Js.newline ++ "INITIALIZING SYSTEM..."
                 ++ Js.newline ++ "CONNECTION ESTABLISHED.").

(** The early-return guard: [!inputValue.trim() || isProcessing]. *)
Definition guard (st : AppState) : bool :=
  negb (Js.truthy (Js.trim (inputValue st))) || isProcessing st.

Definition isClear (commandLower : string) : bool :=
  String.eqb commandLower "clear".

Definition isRbxHunt (commandLower : string) : bool :=
  String.eqb commandLower "rbx hunt".

Definition isSudoRm (commandLower : string) : bool :=
  String.eqb commandLower "sudo rm -rf"
  || Js.startsWith "sudo rm -rf /" commandLower.

(** LOCAL COMMAND: CLEAR *)
Definition clearBranch (st : AppState) : AppState * list Effect :=
  (setMessages (fun _ => []) (setInputValue "" st), []).

(** LOCAL COMMAND: RBX HUNT *)
Definition rbxHuntBranch (userText : string) (st : AppState)
  : AppState * list Effect :=
  (setShouldAutoScroll true
     (setMessages (push (userMessage userText)) (setInputValue "" st)),
   [SetTimeout (ShowSystemMessage scavengerHuntText) 100]).

(** LOCAL COMMAND: FILESYSTEM, once the interpreter has answered. *)
Definition fileSystemBranch (userText commandLower : string) (fsResult : FsResult)
    (st : AppState) : AppState * list Effect :=
  let st' :=
    setShouldAutoScroll true
      (setMessages (push (userMessage userText)) (setInputValue "" st)) in
  let showOutput :=
    if Js.truthy (output fsResult)
    then [SetTimeout (ShowSystemMessage (output fsResult)) 100] else [] in
  match newPath fsResult with
  | Some newDir =>
      if Js.truthy newDir then
        (setCurrentPath newDir st',
         (showOutput
          ++ (if String.eqb commandLower "cd" || Js.startsWith "cd " commandLower
              then [SetTimeout (AutoLs newDir) 1000] else []))%list)
      else (st', showOutput)
  | None => (st', showOutput)
  end.

(** LOCAL COMMAND: SUDO RM -RF *)
Definition sudoRmBranch (userText : string) (st : AppState)
  : AppState * list Effect :=
  (setShouldAutoScroll true
     (setMessages (push (userMessage userText))
        (setIsTypewriterActive false (setIsProcessing true (setInputValue "" st)))),
   (map (fun step : string * nat => SetTimeout (ShowSystemMessage (fst step)) (snd step))
        sudoSequence
    ++ [SetTimeout Reboot 5000])%list).

(** SEND TO AI, up to the [await] of the remote call. *)
Definition sendToAiBranch (userText : string) (st : AppState)
  : AppState * list Effect :=
  (setMessages (push aiPlaceholder)
     (setShouldAutoScroll true
        (setMessages (push (userMessage userText))
           (setStreamingBuffer ""
              (setIsTypewriterActive true
                 (setIsNetworkStreaming true
                    (setIsProcessing true (setInputValue "" st))))))),
   [SendMessageToGeminiStream userText]).

Section Handlers.

(** The two functions imported from [./utils/fileSystem]. *)
Variable executeFileSystemCommand : string -> string -> option FsResult.
Variable getFileSystemCompletions : string -> string -> list string.

Definition handleSendMessage (st : AppState) : AppState * list Effect :=
  if guard st then (st, [])
  else
    let userText := inputValue st in
    let command := Js.trim userText in
    let commandLower := Js.toLowerCase command in
    let st1 := setHistoryIndex (-1)%Z (setHistory (addToHistory userText) st) in
    let '(st2, effects) :=
      if isClear commandLower then clearBranch st1
      else if isRbxHunt commandLower then rbxHuntBranch userText st1
      else
        match executeFileSystemCommand command (currentPath st) with
        | Some fsResult => fileSystemBranch userText commandLower fsResult st1
        | None =>
            if isSudoRm commandLower then sudoRmBranch userText st1
            else sendToAiBranch userText st1
        end in
    (st2, PlayKeystrokeSound :: effects).

(** The callbacks handed to [setTimeout]. *)
Definition fireTimer (action : TimerAction) (st : AppState)
  : AppState * list Effect :=
  match action with
  | ShowSystemMessage t =>
      (setShouldAutoScroll true (setMessages (push (systemMessage t)) st), [])
  | AutoLs newDir =>
      match executeFileSystemCommand "ls" newDir with
      | Some lsResult =>
          if Js.truthy (output lsResult) then
            (setShouldAutoScroll true
               (setMessages (push (systemMessage (output lsResult))) st), [])
          else (st, [])
      | None => (st, [])
      end
  | Reboot =>
      (setCurrentPath "/home/operator"
         (setIsProcessing false (setMessages (fun _ => [rebootMessage]) st)),
       [SetTimeout FocusInput 100])
  | FocusInput => (st, [])
  end.

(** [handleKeyDown], 4. TAB AUTOCOMPLETE *)
Definition handleTab (st : AppState) : AppState :=
  let parts := Js.split " "%char (inputValue st) in
  let partial := last parts "" in
  if 0 <? String.length partial then
    match getFileSystemCompletions partial (currentPath st) with
    | [completed] =>
        setInputValue (Js.join " " (removelast parts ++ [completed])%list) st
    | _ => st
    end
  else st.

(** [entries[index]]: [undefined], here [None], outside the array. *)
Definition entryAt (entries : list string) (index : Z) : option string :=
  if (index <? 0)%Z then None else nth_error entries (Z.to_nat index).

(** Writing a recalled entry into the input field.  [None] stands for the
    field being handed [undefined]. *)
Definition recall (newIndex : Z) (st : AppState) : option AppState :=
  option_map (fun entry => setInputValue entry (setHistoryIndex newIndex st))
             (entryAt (history st) newIndex).

(** [handleKeyDown], 2. HISTORY NAVIGATION (UP) *)
Definition handleArrowUp (st : AppState) : option AppState :=
  if 0 <? length (history st) then
    let newIndex :=
      if (historyIndex st =? -1)%Z then (Z.of_nat (length (history st)) - 1)%Z
      else Z.max 0 (historyIndex st - 1) in
    recall newIndex st
  else Some st.

(** [handleKeyDown], 3. HISTORY NAVIGATION (DOWN) *)
Definition handleArrowDown (st : AppState) : option AppState :=
  if negb (historyIndex st =? -1)%Z then
    let newIndex :=
      Z.min (Z.of_nat (length (history st)) - 1) (historyIndex st + 1) in
    if (newIndex =? Z.of_nat (length (history st)) - 1)%Z
       && (historyIndex st =? Z.of_nat (length (history st)) - 1)%Z
    then Some (setInputValue "" (setHistoryIndex (-1)%Z st))
    else recall newIndex st
  else Some st.

(** The keys [handleKeyDown] tells apart; any other key falls through. *)
Inductive Key : Type := Enter | ArrowUp | ArrowDown | Tab | OtherKey.

Definition handleKeyDown (key : Key) (st : AppState)
  : option (AppState * list Effect) :=
  match key with
  | Enter => Some (handleSendMessage st)
  | ArrowUp => option_map (fun st' => (st', [])) (handleArrowUp st)
  | ArrowDown => option_map (fun st' => (st', [])) (handleArrowDown st)
  | Tab => Some (handleTab st, [])
  | OtherKey => Some (st, [])
  end.

(** A run of key presses; [None] when one of them hands the input field
    [undefined]. *)
Fixpoint pressKeys (keys : list Key) (st : AppState) : option AppState :=
  match keys with
  | [] => Some st
  | key :: rest =>
      match handleKeyDown key st with
      | Some (st', _) => pressKeys rest st'
      | None => None
      end
  end.

(** The timers a handler has set, as the browser keeps them: by delay, and
    in the order of the calls for equal delays. *)
Definition timersOf (effects : list Effect) : list (TimerAction * nat) :=
  flat_map (fun effect =>
              match effect with
              | SetTimeout action delay => [(action, delay)]
              | _ => []
              end) effects.

Fixpoint insertTimer (timer : TimerAction * nat) (queue : list (TimerAction * nat))
  : list (TimerAction * nat) :=
  match queue with
  | [] => [timer]
  | next :: rest =>
      if snd timer <? snd next then timer :: queue
      else next :: insertTimer timer rest
  end.

Definition schedule (effects : list Effect) : list (TimerAction * nat) :=
  fold_left (fun queue timer => insertTimer timer queue) (timersOf effects) [].

(** Firing a queue of timers in order; what the callbacks ask for in turn
    is collected. *)
Fixpoint fireAll (queue : list (TimerAction * nat)) (st : AppState)
  : AppState * list Effect :=
  match queue with
  | [] => (st, [])
  | (action, _) :: rest =>
      let '(st1, effects1) := fireTimer action st in
      let '(st2, effects2) := fireAll rest st1 in
      (st2, (effects1 ++ effects2)%list)
  end.

End Handlers.

End App.

(** ** The shared types *)

Module Types.

(** The declarations of [types.ts] are not among the sources; the values
    are the ones the component and its collaborators compare against. *)
Inductive Theme : Type := retro | clean.

Inductive ChatMode : Type := terminal | assistant.

End Types.

(** ** [utils/audio.ts]: the Web Audio wrapper *)

Module Audio.

(** The module-level variables: whether the audio context exists, the
    value of the master gain when its node exists, and the mute flag.  The
    gain values are the literals of the source; nothing is computed from
    them. *)
Record State : Type :=
  { audioCtx : bool; masterGain : option Q; isMuted : bool }.

Definition initial : State :=
  {| audioCtx := false; masterGain := None; isMuted := false |}.

Inductive Sound : Type := BootSound | KeystrokeSound | IncomingDataSound.

(** What the module asks of the Web Audio API.  An oscillator is started
    with the wave form, pitch and envelope of its sound, which are
    constants of the source apart from the random detune of a keystroke. *)
Inductive Request : Type :=
| CreateContext
| ResumeContext
| StartOscillator (sound : Sound).

(** [initAudio]; [suspended] is what [audioCtx.state === 'suspended']
    answers at the call. *)
Definition initAudio (suspended : bool) (s : State) : State * list Request :=
  let '(s1, created) :=
    if audioCtx s then (s, [])
    else ({| audioCtx := true; masterGain := Some (1 # 10)%Q;
             isMuted := isMuted s |}, [CreateContext]) in
  (s1, (created ++ if suspended then [ResumeContext] else [])%list).

Definition toggleMute (muted : bool) (s : State) : State :=
  {| audioCtx := audioCtx s;
     masterGain :=
       match masterGain s with
       | Some _ => Some (if muted then 0 else (1 # 10))%Q
       | None => None
       end;
     isMuted := muted |}.

Definition playBootSound (suspended : bool) (s : State) : State * list Request :=
  if isMuted s then (s, [])
  else let '(s1, requests) := initAudio suspended s in
       (s1, (requests ++ [StartOscillator BootSound])%list).

Definition playKeystrokeSound (suspended : bool) (s : State) : State * list Request :=
  if isMuted s then (s, [])
  else let '(s1, requests) := initAudio suspended s in
       (s1, (requests ++ [StartOscillator KeystrokeSound])%list).

Definition playIncomingDataSound (suspended : bool) (s : State) : State * list Request :=
  if isMuted s then (s, [])
  else let '(s1, requests) := initAudio suspended s in
       (s1, (requests ++ [StartOscillator IncomingDataSound])%list).

(** The calls the rest of the program makes into the module. *)
Inductive Call : Type :=
| CallToggleMute (muted : bool)
| CallPlay (sound : Sound) (suspended : bool).

Definition call (c : Call) (s : State) : State * list Request :=
  match c with
  | CallToggleMute muted => (toggleMute muted s, [])
  | CallPlay BootSound suspended => playBootSound suspended s
  | CallPlay KeystrokeSound suspended => playKeystrokeSound suspended s
  | CallPlay IncomingDataSound suspended => playIncomingDataSound suspended s
  end.

Fixpoint run (calls : list Call) (s : State) : State * list Request :=
  match calls with
  | [] => (s, [])
  | c :: rest =>
      let '(s1, requests1) := call c s in
      let '(s2, requests2) := run rest s1 in
      (s2, (requests1 ++ requests2)%list)
  end.

End Audio.

(** ** [services/geminiService.ts]: the chat session *)

Module GeminiService.

Import Types.

(** The two system prompts, by the names of their constants. *)
Inductive Instruction : Type := TERMINAL_INSTRUCTION | ASSISTANT_INSTRUCTION.

(** A chat as [client.chats.create] is asked to make it. *)
Record Chat : Type := { model : string; systemInstruction : Instruction }.

(** The module-level variables: the client, by the key it was built with,
    the chat session and the current mode. *)
Record State : Type :=
  { ai : option string; chatSession : option Chat; currentMode : ChatMode }.

Definition initial : State :=
  {| ai := None; chatSession := None; currentMode := terminal |}.

Inductive Request : Type :=
| ConsoleError
| CreateClient (apiKey : string)
| CreateChat (chat : Chat)
| SendMessageStream (chat : Chat) (message : string).

(** [getAiClient]; [apiKey] is [process.env.API_KEY]. *)
Definition getAiClient (apiKey : option string) (s : State)
  : State * string * list Request :=
  match ai s with
  | Some client => (s, client, [])
  | None =>
      let present :=
        match apiKey with Some key => Js.truthy key | None => false end in
      let key := match apiKey with
                 | Some key => if Js.truthy key then key else ""
                 | None => ""
                 end in
      ({| ai := Some key; chatSession := chatSession s; currentMode := currentMode s |},
       key,
       ((if present then [] else [ConsoleError]) ++ [CreateClient key])%list)
  end.

Definition switchChatMode (mode : ChatMode) (s : State) : State :=
  {| ai := ai s; chatSession := None; currentMode := mode |}.

Definition getChatSession (apiKey : option string) (s : State)
  : State * Chat * list Request :=
  match chatSession s with
  | Some chat => (s, chat, [])
  | None =>
      let '(s1, _, requests) := getAiClient apiKey s in
      let instruction :=
        match currentMode s1 with
        | terminal => TERMINAL_INSTRUCTION
        | assistant => ASSISTANT_INSTRUCTION
        end in
      let chat := {| model := "gemini-2.5-flash"; systemInstruction := instruction |} in
      ({| ai := ai s1; chatSession := Some chat; currentMode := currentMode s1 |},
       chat, (requests ++ [CreateChat chat])%list)
  end.

(** [sendMessageToGeminiStream]; [failure] is what [chat.sendMessageStream]
    throws, if it throws.  The error is logged and thrown again. *)
Definition sendMessageToGeminiStream (apiKey : option string) (message : string)
    (failure : option App.Thrown) (s : State)
  : State * option App.Thrown * list Request :=
  let '(s1, chat, requests) := getChatSession apiKey s in
  (s1, failure,
   (requests ++ [SendMessageStream chat message]
    ++ match failure with Some _ => [ConsoleError] | None => [] end)%list).

End GeminiService.

(** ** [components/Header.tsx]: the labels that depend on the mode *)

Module Header.

Import Types.

Definition desktopTitlePart1 (mode : ChatMode) : string :=
  match mode with terminal => "ENDEAVOUR" | assistant => "GEMINI" end.

Definition desktopTitlePart2 (mode : ChatMode) : string :=
  match mode with terminal => "OS" | assistant => "LINK" end.

Definition mobileTitle (mode : ChatMode) : string :=
  match mode with terminal => "EOS_TERM" | assistant => "AI_LINK" end.

Definition modeDisplayName (mode : ChatMode) : string :=
  match mode with terminal => "ENDEAVOUR_OS" | assistant => "GEMINI_LINK" end.

Definition modeMobileName (mode : ChatMode) : string :=
  match mode with terminal => "EOS" | assistant => "AI" end.

End Header.

(** ** The rest of [App]: theme, mode, mute and the prompt *)

Module Shell.

Import Types App.

(** The whole program: the cells of [App] modelled so far, its three
    remaining cells, and the module-level variables of the chat service
    and of the audio wrapper. *)
Record Shell : Type :=
  { app : AppState;
    theme : Theme;
    chatMode : ChatMode;
    isMuted : bool;
    gemini : GeminiService.State;
    audio : Audio.State }.

Definition initialShell : Shell :=
  {| app := initialState; theme := retro; chatMode := terminal; isMuted := false;
     gemini := GeminiService.initial; audio := Audio.initial |}.

Definition withApp (f : AppState -> AppState) (sh : Shell) : Shell :=
  {| app := f (app sh); theme := theme sh; chatMode := chatMode sh;
     isMuted := isMuted sh; gemini := gemini sh; audio := audio sh |}.

(** SYSTEM CHECKS, the effect that runs when booting ends. *)
Definition systemCheck (apiKey : option string) (sh : Shell) : Shell :=
  let missing :=
    match apiKey with
    | Some key => negb (Js.truthy key) || String.eqb (Js.trim key) ""
    | None => true
    end in
  if missing then
    withApp (setMessages
               (push (systemMessage
                        ("FATAL ERROR: API_KEY MISSING." ++ Js.newline
                         ++ "DEPLOYMENT CONFIGURATION INCOMPLETE." ++ Js.newline
                         ++ "PLEASE SET API_KEY IN CLOUDFLARE SETTINGS.")))) sh
  else
    {| app := app sh; theme := theme sh; chatMode := chatMode sh;
       isMuted := isMuted sh;
       gemini := GeminiService.switchChatMode terminal (gemini sh);
       audio := audio sh |}.

Definition toggleTheme (sh : Shell) : Shell :=
  {| app := app sh;
     theme := match theme sh with retro => clean | clean => retro end;
     chatMode := chatMode sh; isMuted := isMuted sh;
     gemini := gemini sh; audio := audio sh |}.

Definition modeAnnouncement (newMode : ChatMode) : Message :=
  systemMessage
    ("SWITCHING SYSTEM TO: "
     ++ match newMode with terminal => "ENDEAVOUR_OS" | assistant => "GEMINI_LINK" end
     ++ "..." ++ Js.newline
     ++ match newMode with
        | terminal => "LOADING SHELL ENVIRONMENT..."
        | assistant => "ESTABLISHING NEURAL LINK..."
        end).

Definition toggleMode (sh : Shell) : Shell :=
  let newMode := match chatMode sh with terminal => assistant | assistant => terminal end in
  {| app := setMessages (push (modeAnnouncement newMode)) (app sh);
     theme := theme sh;
     chatMode := newMode;
     isMuted := isMuted sh;
     gemini := GeminiService.switchChatMode newMode (gemini sh);
     audio := audio sh |}.

Definition handleToggleMute (sh : Shell) : Shell :=
  let newState := negb (isMuted sh) in
  {| app := app sh; theme := theme sh; chatMode := chatMode sh;
     isMuted := newState;
     gemini := gemini sh;
     audio := Audio.toggleMute newState (audio sh) |}.

(** Prompt Text Logic *)
Definition promptText (mode : ChatMode) (currentPath : string) : string :=
  match mode with
  | terminal =>
      let displayPath :=
        if Js.startsWith "/home/operator" currentPath
        then "~" ++ Js.sliceFrom 14 currentPath
        else currentPath in
      "root@eos " ++ displayPath ++ " #"
  | assistant => "gemini@core ~ >"
  end.

(** What can happen to the program between two renders: a click on one of
    the three header buttons, a sound asked of the audio wrapper, and the
    remote call of the message handler. *)
Inductive Event : Type :=
| ClickTheme
| ClickMode
| ClickMute
| PlaySound (sound : Audio.Sound) (suspended : bool)
| RemoteCall (apiKey : option string) (message : string) (failure : option Thrown).

Definition step (sh : Shell) (ev : Event) : Shell :=
  match ev with
  | ClickTheme => toggleTheme sh
  | ClickMode => toggleMode sh
  | ClickMute => handleToggleMute sh
  | PlaySound sound suspended =>
      {| app := app sh; theme := theme sh; chatMode := chatMode sh;
         isMuted := isMuted sh; gemini := gemini sh;
         audio := fst (Audio.call (Audio.CallPlay sound suspended) (audio sh)) |}
  | RemoteCall apiKey message failure =>
      {| app := app sh; theme := theme sh; chatMode := chatMode sh;
         isMuted := isMuted sh;
         gemini :=
           fst (fst (GeminiService.sendMessageToGeminiStream apiKey message failure
                       (gemini sh)));
         audio := audio sh |}
  end.

Definition runEvents (evs : list Event) (sh : Shell) : Shell :=
  fold_left step evs sh.

End Shell.

(** ** [components/MessageItem.tsx]: inline formatting of a message *)

Module MessageItem.

(** [s.replace(/c/g, by)] for a pattern of one literal character. *)
Fixpoint replaceChar (c : ascii) (by_ : string) (s : string) : string :=
  match s with
  | EmptyString => EmptyString
  | String x s' =>
      if Ascii.eqb x c then by_ ++ replaceChar c by_ s'
      else String x (replaceChar c by_ s')
  end.

(** The first three replacements of [formatInlineMarkdown], in their
    order. *)
Definition escapeHtml (text : string) : string :=
  replaceChar ">" "&gt;" (replaceChar "<" "&lt;" (replaceChar "&" "&amp;" text)).

(** What the dot of a regular expression does not match, within Latin-1:
    line feed and carriage return. *)
Definition isLineTerminator (c : ascii) : bool :=
  (nat_of_ascii c =? 10) || (nat_of_ascii c =? 13).

(** The tail [(.*?)delim] of the two patterns, tried at [s]: the lazy dot
    gives way to the delimiter at the first place where it stands, and
    fails at a line terminator.  The answer is the captured group and the
    text after the match. *)
Fixpoint closing (delim : string) (s : string) : option (string * string) :=
  if Js.startsWith delim s then Some (EmptyString, Js.sliceFrom (String.length delim) s)
  else match s with
       | EmptyString => None
       | String c s' =>
           if isLineTerminator c then None
           else match closing delim s' with
                | Some (inner, rest) => Some (String c inner, rest)
                | None => None
                end
       end.

(** [s.replace(/delim(.*?)delim/g, openTag + '$1' + closeTag)]: the matches
    are looked for from left to right, each search starting where the
    previous match ended; a character at which no match starts is copied.
    Every step consumes a character, so [fuel] of the length of [s] is
    enough. *)
Fixpoint replaceDelimited (fuel : nat) (delim openTag closeTag : string) (s : string)
  : string :=
  match fuel with
  | 0 => s
  | S fuel' =>
      match s with
      | EmptyString => EmptyString
      | String c s' =>
          if Js.startsWith delim s then
            match closing delim (Js.sliceFrom (String.length delim) s) with
            | Some (inner, rest) =>
                openTag ++ inner ++ closeTag
                ++ replaceDelimited fuel' delim openTag closeTag rest
            | None => String c (replaceDelimited fuel' delim openTag closeTag s')
            end
          else String c (replaceDelimited fuel' delim openTag closeTag s')
      end
  end.

Definition strongOpen : string := "<strong>".

Definition strongClose : string := "</strong>".

Definition codeOpen : string :=
  "<code class=" ++ Js.quote ++ "bg-gray-700 bg-opacity-50 px-1 rounded mx-1 text-sm"
  ++ Js.quote ++ ">".

Definition codeClose : string := "</code>".

(** Bold (**text**) *)
Definition formatBold (s : string) : string :=
  replaceDelimited (String.length s) "**" strongOpen strongClose s.

(** Inline Code (`text`) *)
Definition formatCode (s : string) : string :=
  replaceDelimited (String.length s) "`" codeOpen codeClose s.

Definition formatInlineMarkdown (text : string) : string :=
  formatCode (formatBold (escapeHtml text)).

End MessageItem.

(** ** The vocabulary of the specification, read off the component *)

Module Spec.

Import App.

(** StreamState: [pending] is the buffer ref, [sourceActive] the network
    flag, [revealed] the text committed to the last message of the log. *)
Definition pending (st : AppState) : string := streamingBuffer st.

Definition sourceActive (st : AppState) : bool := isNetworkStreaming st.

Definition revealed (st : AppState) : string :=
  match lastMessage (messages st) with
  | Some m => text m
  | None => ""
  end.

(** The stream is terminal: the source is closed and nothing is pending. *)
Definition terminal (st : AppState) : Prop :=
  sourceActive st = false /\ pending st = "".

(** The typewriter is live: the interval is installed and the last message
    of the log is the streaming placeholder. *)
Definition typing (st : AppState) : Prop :=
  intervalInstalled st = true
  /\ exists m, lastMessage (messages st) = Some m /\ isStreaming m = true.

(** The handler is still consuming the stream. *)
Definition consuming (st : AppState) : Prop :=
  typing st /\ isNetworkStreaming st = true.

(** Either the typewriter is live, or it has stopped with nothing pending. *)
Definition settled (st : AppState) : Prop :=
  typing st \/ (intervalInstalled st = false /\ pending st = "").

(** The concatenation, in arrival order, of the chunks of a run. *)
Fixpoint arrivedText (evs : list StreamingEvent) : string :=
  match evs with
  | [] => ""
  | ChunkArrives (Some t) :: rest => t ++ arrivedText rest
  | _ :: rest => arrivedText rest
  end.

(** What the end of the stream appends. *)
Definition endText (ending : StreamEnd) : string :=
  match ending with
  | StreamExhausted => ""
  | StreamThrows error => errorFragment error
  end.

(** A reply in flight: the handler has taken the remote path, the events
    [evs] have happened, and the stream has ended or not. *)
Definition session (userText : string) (st0 : AppState)
    (evs : list StreamingEvent) (ending : option StreamEnd) : AppState :=
  let st := runStreaming evs (fst (sendToAiBranch userText st0)) in
  match ending with
  | None => st
  | Some e => fst (endStream e st)
  end.

(** Everything appended to the buffer during such a session. *)
Definition appended (evs : list StreamingEvent) (ending : option StreamEnd) : string :=
  arrivedText evs ++ match ending with Some e => endText e | None => "" end.

(** The backlog left after [n] ticks with no arrival in between. *)
Fixpoint backlogAfter (n backlog : nat) : nat :=
  match n with
  | 0 => backlog
  | S n' => backlogAfter n' (backlog - charsToTake backlog)
  end.

(** The number of ticks that drain a backlog; every tick takes at least
    one character, so [fuel = backlog] is enough. *)
Fixpoint drainFrom (fuel backlog : nat) : nat :=
  match fuel with
  | 0 => 0
  | S fuel' =>
      if backlog =? 0 then 0
      else S (drainFrom fuel' (backlog - charsToTake backlog))
  end.

Definition ticksToDrain (backlog : nat) : nat := drainFrom backlog backlog.

(** The router of section 4.3, in the order the specification gives. *)
Inductive Route : Type :=
| ResetCommand
| EasterEgg
| FileSystemCommand (fsResult : FsResult)
| RemoteChat.

Definition isEasterEgg (commandLower : string) : bool :=
  isRbxHunt commandLower || isSudoRm commandLower.

Definition classify (execute : string -> string -> option FsResult)
    (command currentPath : string) : Route :=
  let commandLower := Js.toLowerCase command in
  if isClear commandLower then ResetCommand
  else if isEasterEgg commandLower then EasterEgg
  else match execute command currentPath with
       | Some fsResult => FileSystemCommand fsResult
       | None => RemoteChat
       end.

Definition dispatch (route : Route) (userText commandLower : string)
    (st : AppState) : AppState * list Effect :=
  match route with
  | ResetCommand => clearBranch st
  | EasterEgg =>
      if isRbxHunt commandLower then rbxHuntBranch userText st
      else sudoRmBranch userText st
  | FileSystemCommand fsResult => fileSystemBranch userText commandLower fsResult st
  | RemoteChat => sendToAiBranch userText st
  end.

Definition forwardsToRemote (effects : list Effect) : Prop :=
  exists userText, In (SendMessageToGeminiStream userText) effects.

(** A string without the space character. *)
Fixpoint noSpace (s : string) : bool :=
  match s with
  | EmptyString => true
  | String c s' => negb (Ascii.eqb " " c) && noSpace s'
  end.

(** The last token of an input line, the text after its last space, and
    what precedes it. *)
Fixpoint lastToken (s : string) : string :=
  match s with
  | EmptyString => EmptyString
  | String _ s' => if noSpace s then s else lastToken s'
  end.

Fixpoint beforeLastToken (s : string) : string :=
  match s with
  | EmptyString => EmptyString
  | String c s' => if noSpace s then EmptyString else String c (beforeLastToken s')
  end.

(** Completion on Tab as the specification words it: the last token is
    replaced whenever the lookup of it has exactly one answer, and the
    input is kept whenever it has none or several. *)
Definition completesOnSingleMatch
    (complete : string -> string -> list string) (st : AppState) : Prop :=
  let partial := lastToken (inputValue st) in
  let before := beforeLastToken (inputValue st) in
  (forall completed,
     complete partial (currentPath st) = [completed] ->
     handleTab complete st = setInputValue (before ++ completed) st)
  /\ (length (complete partial (currentPath st)) <> 1 ->
      handleTab complete st = st).

(** The reset of the lifecycle paragraph, as a property of the state a
    submission of [clear] leaves: the history is empty with no cursor,
    nothing is pending, the source is closed and the typewriter has
    stopped. *)
Definition sessionDiscarded (st : AppState) : Prop :=
  history st = [] /\ historyIndex st = (-1)%Z
  /\ pending st = "" /\ sourceActive st = false
  /\ intervalInstalled st = false.

Definition clearDiscardsSession
    (execute : string -> string -> option FsResult) : Prop :=
  forall st,
    Js.toLowerCase (Js.trim (inputValue st)) = "clear" ->
    sessionDiscarded (fst (handleSendMessage execute st)).

(** The recall cursor is [-1] or the index of an entry of the history. *)
Definition cursorValid (st : AppState) : Prop :=
  historyIndex st = (-1)%Z
  \/ (0 <= historyIndex st < Z.of_nat (length (history st)))%Z.

(** Pressing a recall key [n] times in a row. *)
Fixpoint pressRepeatedly (n : nat) (handler : AppState -> option AppState)
    (st : AppState) : option AppState :=
  match n with
  | 0 => Some st
  | S n' =>
      match handler st with
      | Some st' => pressRepeatedly n' handler st'
      | None => None
      end
  end.

(** The system prompt that belongs to a mode. *)
Definition instructionFor (mode : Types.ChatMode) : GeminiService.Instruction :=
  match mode with
  | Types.terminal => GeminiService.TERMINAL_INSTRUCTION
  | Types.assistant => GeminiService.ASSISTANT_INSTRUCTION
  end.

(** A chat session, when there is one, was made for the current mode. *)
Definition sessionMatchesMode (s : GeminiService.State) : Prop :=
  forall chat,
    GeminiService.chatSession s = Some chat ->
    GeminiService.systemInstruction chat = instructionFor (GeminiService.currentMode s).

(** The gain node exists exactly when the context does, and its value
    follows the mute flag. *)
Definition gainFollowsMute (s : Audio.State) : Prop :=
  Audio.masterGain s
  = if Audio.audioCtx s
    then Some (if Audio.isMuted s then 0 else (1 # 10))%Q
    else None.

(** How many audio contexts a list of requests creates. *)
Definition contextsCreated (requests : list Audio.Request) : nat :=
  length (filter (fun request =>
                    match request with Audio.CreateContext => true | _ => false end)
                 requests).

Definition isPlay (c : Audio.Call) : bool :=
  match c with Audio.CallPlay _ _ => true | Audio.CallToggleMute _ => false end.

(** The header and the two services agree: the mode cell is the service's
    current mode and the mute cell is the wrapper's flag. *)
Definition shellCoherent (sh : Shell.Shell) : Prop :=
  Shell.chatMode sh = GeminiService.currentMode (Shell.gemini sh)
  /\ Shell.isMuted sh = Audio.isMuted (Shell.audio sh)
  /\ sessionMatchesMode (Shell.gemini sh)
  /\ gainFollowsMute (Shell.audio sh).

(** One character of a message as the escaping leaves it. *)
Definition escapeChar (c : ascii) : string :=
  if Ascii.eqb c "&" then "&amp;"
  else if Ascii.eqb c "<" then "&lt;"
  else if Ascii.eqb c ">" then "&gt;"
  else String c EmptyString.

Fixpoint escapeEach (s : string) : string :=
  match s with
  | EmptyString => EmptyString
  | String c s' => escapeChar c ++ escapeEach s'
  end.

(** The character occurs nowhere in the string. *)
Fixpoint lacks (c : ascii) (s : string) : bool :=
  match s with
  | EmptyString => true
  | String x s' => negb (Ascii.eqb x c) && lacks c s'
  end.

(** Text that the inline formatting has nothing to do with. *)
Definition unmarked (s : string) : bool :=
  lacks "&" s && lacks "<" s && lacks ">" s && lacks "*" s && lacks "`" s.

Definition singleLine (s : string) : bool :=
  lacks (ascii_of_nat 10) s && lacks (ascii_of_nat 13) s.

(** The four tags the formatting writes. *)
Definition formattingTags : list string :=
  [MessageItem.strongOpen; MessageItem.strongClose;
   MessageItem.codeOpen; MessageItem.codeClose].

(** Markup in which every angle bracket belongs to one of the four tags:
    a sequence of those tags and of characters other than [<] and [>]. *)
Inductive TagSafe : string -> Prop :=
| TagSafe_nil : TagSafe EmptyString
| TagSafe_char (c : ascii) (s : string) :
    c <> "<"%char -> c <> ">"%char -> TagSafe s -> TagSafe (String c s)
| TagSafe_tag (tag s : string) :
    In tag formattingTags -> TagSafe s -> TagSafe (tag ++ s).

(** The handler takes the submission: the guard lets it through. *)
Definition accepted (st : AppState) : Prop :=
  Js.trim (inputValue st) <> "" /\ isProcessing st = false.

End Spec.

(** ** States used to exercise the handlers *)

Module Fixtures.

Import App.

(** The user has typed [userText]. *)
Definition typed (userText : string) (st : AppState) : AppState :=
  setInputValue userText st.

Definition send (st : AppState) : AppState :=
  fst (handleSendMessage Vfs.fixtureExecute st).

(** A reply is streaming: [hello] was sent, [abc] has arrived, and the
    user has typed [clear]. *)
Definition streamingClear : AppState :=
  typed "clear"
    (runStreaming [ChunkArrives (Some "abc")] (send (typed "hello" initialState))).

(** The prompt is idle after [ls]; the user has typed [clear]. *)
Definition idleClear : AppState :=
  typed "clear" (send (typed "ls" initialState)).

(** Only blanks have been typed. *)
Definition blankInput : AppState := typed "   " initialState.

(** The scripted deletion has been typed at the idle prompt. *)
Definition sudoTyped : AppState := typed "sudo rm -rf /" initialState.

(** Fifty commands are remembered and a fifty-first has been typed. *)
Definition fullHistory : AppState :=
  typed "pwd" (setHistory (fun _ => repeat "ls" 50) initialState).

(** The reply [hi] has arrived in one chunk, the stream has ended, and two
    firings of the timer have revealed it. *)
Definition drained : AppState :=
  ticks 2 (Spec.session "hello" initialState [ChunkArrives (Some "hi")]
             (Some StreamExhausted)).

(** A name has been started in the home directory. *)
Definition tabTyped : AppState := typed "cd do" initialState.

(** A blank follows the command, one level up, where [operator] is the
    only entry. *)
Definition tabAfterBlank : AppState :=
  typed "cd " (setCurrentPath "/home" initialState).

(** The only entry of the directory has been started and a blank typed
    after it. *)
Definition tabTrailingBlank : AppState :=
  typed "o " (setCurrentPath "/home" initialState).

(** A reply is streaming with [abc] pending when a timer set by an earlier
    command adds a system message to the log. *)
Definition overtaken : AppState :=
  fst (fireTimer Vfs.fixtureExecute (ShowSystemMessage "docs/")
         (runStreaming [ChunkArrives (Some "abc")]
            (send (typed "hello" initialState)))).

(** A directory of the home directory is about to be entered. *)
Definition cdTyped : AppState := typed "cd docs" initialState.

(** [ls] and [pwd] have been run; the prompt is idle and empty. *)
Definition twoRemembered : AppState :=
  send (typed "pwd" (send (typed "ls" initialState))).

(** The sound wrapper after the mute button was clicked once. *)
Definition mutedAudio : Audio.State := Audio.toggleMute true Audio.initial.

End Fixtures.

(** * Properties *)

(** ** Strings *)

Section StringFacts.

Lemma append_nil_r (s : string) : s ++ "" = s.
Proof. induction s as [|c s IH]; simpl; [reflexivity | now rewrite IH]. Qed.

Lemma append_assoc (a b c : string) : (a ++ b) ++ c = a ++ (b ++ c).
Proof. induction a as [|x a IH]; simpl; [reflexivity | now rewrite IH]. Qed.

Lemma length_zero_empty (s : string) : String.length s = 0 -> s = "".
Proof. destruct s; [reflexivity | discriminate]. Qed.

Lemma slice_split (n : nat) (s : string) : Js.sliceTo n s ++ Js.sliceFrom n s = s.
Proof.
  revert s; induction n as [|n IH]; intros [|c s]; simpl; try reflexivity.
  now rewrite IH.
Qed.

Lemma length_sliceTo (n : nat) (s : string) :
  n <= String.length s -> String.length (Js.sliceTo n s) = n.
Proof.
  revert s; induction n as [|n IH]; intros [|c s] Hn; simpl in *; try lia.
  rewrite IH; lia.
Qed.

Lemma length_sliceFrom (n : nat) (s : string) :
  String.length (Js.sliceFrom n s) = String.length s - n.
Proof.
  revert s; induction n as [|n IH]; intros [|c s]; simpl; try lia.
  apply IH.
Qed.

Lemma prefix_append (a b : string) : String.prefix a (a ++ b) = true.
Proof.
  induction a as [|x a IH]; simpl.
  - now destruct b.
  - destruct (ascii_dec x x); [exact IH | congruence].
Qed.

End StringFacts.

(** ** The throughput policy *)

Section Throughput.

Import App Spec.

Lemma charsToTake_cases (bufferLen : nat) :
  (150 < bufferLen -> charsToTake bufferLen = 3)
  /\ (50 < bufferLen <= 150 -> charsToTake bufferLen = 2)
  /\ (bufferLen <= 50 -> charsToTake bufferLen = 1).
Proof.
  unfold charsToTake.
  destruct (Nat.ltb_spec 150 bufferLen); destruct (Nat.ltb_spec 50 bufferLen);
    repeat split; intros; lia.
Qed.

Lemma charsToTake_bounds (bufferLen : nat) :
  0 < bufferLen -> 1 <= charsToTake bufferLen <= bufferLen.
Proof.
  intros Hpos. destruct (charsToTake_cases bufferLen) as (H3 & H2 & H1).
  destruct (Nat.lt_ge_cases 150 bufferLen) as [Hbig | Hsmall].
  - rewrite (H3 Hbig); lia.
  - destruct (Nat.lt_ge_cases 50 bufferLen) as [Hmid | Hlow].
    + rewrite H2; lia.
    + rewrite (H1 Hlow); lia.
Qed.

Lemma backlogAfter_zero (n : nat) : backlogAfter n 0 = 0.
Proof. induction n as [|n IH]; simpl; [reflexivity | exact IH]. Qed.

Lemma drainFrom_exact (fuel : nat) :
  forall backlog n, backlog <= fuel ->
    (backlogAfter n backlog = 0 <-> drainFrom fuel backlog <= n).
Proof.
  induction fuel as [|fuel IH]; intros backlog n Hle.
  - assert (backlog = 0) by lia; subst. rewrite backlogAfter_zero; simpl.
    split; intros; lia.
  - simpl. destruct (backlog =? 0) eqn:Hz.
    + apply Nat.eqb_eq in Hz; subst. rewrite backlogAfter_zero.
      split; intros; lia.
    + apply Nat.eqb_neq in Hz.
      destruct n as [|n]; simpl.
      * split; intros; lia.
      * pose proof (charsToTake_bounds backlog ltac:(lia)) as Hb.
        rewrite (IH (backlog - charsToTake backlog) n) by lia.
        split; intros; lia.
Qed.

Lemma ticksToDrain_exact (backlog n : nat) :
  backlogAfter n backlog = 0 <-> ticksToDrain backlog <= n.
Proof. apply drainFrom_exact; lia. Qed.

End Throughput.

(** ** The typewriter loop and the stream consumer *)

Section Coordinator.

Import App Spec.

Lemma lastMessage_push (msgs : list Message) (m : Message) :
  lastMessage (msgs ++ [m]) = Some m.
Proof.
  unfold lastMessage. rewrite length_app; simpl.
  replace (length msgs + 1) with (S (length msgs)) by lia.
  rewrite nth_error_app2 by lia. now rewrite Nat.sub_diag.
Qed.

Lemma updateStreaming_live (f : Message -> Message) (prev : list Message) (m : Message) :
  lastMessage prev = Some m -> isStreaming m = true ->
  updateStreaming f prev = (removelast prev ++ [f m])%list.
Proof. intros Hlast Hs. unfold updateStreaming. now rewrite Hlast, Hs. Qed.

Lemma sendToAi_consuming (userText : string) (st0 : AppState) :
  let st := fst (sendToAiBranch userText st0) in
  consuming st /\ revealed st = "" /\ pending st = "".
Proof.
  simpl. unfold consuming, typing, revealed, pending, intervalInstalled, push; simpl.
  rewrite lastMessage_push. repeat split; try reflexivity.
  exists aiPlaceholder; split; reflexivity.
Qed.

(** One firing of the timer while the typewriter is live. *)
Lemma tick_live (st : AppState) :
  typing st ->
  let n := charsToTake (String.length (pending st)) in
  pending (onInterval st) = Js.sliceFrom n (pending st)
  /\ revealed (onInterval st) = revealed st ++ Js.sliceTo n (pending st)
  /\ isNetworkStreaming (onInterval st) = isNetworkStreaming st
  /\ (pending st <> "" ->
        tick st = (onInterval st, Revealed (Js.sliceTo n (pending st)))
        /\ typing (onInterval st))
  /\ (pending st = "" -> isNetworkStreaming st = true -> onInterval st = st)
  /\ (pending st = "" -> isNetworkStreaming st = false ->
        tick st = (onInterval st, Terminal)
        /\ isProcessing (onInterval st) = false
        /\ (forall m, lastMessage (messages (onInterval st)) = Some m ->
                      isStreaming m = false)).
Proof.
  intros [Hinst (m & Hlast & Hstream)]. unfold onInterval. rewrite Hinst.
  unfold tick, pending, revealed in *.
  destruct (streamingBuffer st) as [|c buf] eqn:Hbuf.
  - (* nothing pending *)
    simpl. destruct (isNetworkStreaming st) eqn:Hnet; simpl.
    + rewrite Hbuf, Hlast, append_nil_r. repeat split; try reflexivity;
        intros; congruence.
    + rewrite (updateStreaming_live _ _ _ Hlast Hstream), lastMessage_push, Hbuf.
      simpl. rewrite append_nil_r.
      repeat split; try reflexivity; try (intros; congruence).
      * now rewrite Hlast.
      * intros m' Hm'. injection Hm' as <-. reflexivity.
  - (* a backlog *)
    cbn [String.length Nat.ltb Nat.leb fst].
    set (n := charsToTake (S (String.length buf))).
    set (chunk := Js.sliceTo n (String c buf)).
    set (st' := setMessages _ _).
    assert (Hm : messages st' = (removelast (messages st) ++ [appendText chunk m])%list)
      by (unfold st'; simpl; now apply updateStreaming_live).
    assert (Hl : lastMessage (messages st') = Some (appendText chunk m))
      by (rewrite Hm; apply lastMessage_push).
    split; [reflexivity|].
    split; [now rewrite Hl, Hlast|].
    split; [reflexivity|].
    split.
    { intros _. split; [reflexivity|]. split; [exact Hinst|].
      exists (appendText chunk m). split; [exact Hl | exact Hstream]. }
    split; intros; discriminate.
Qed.

Lemma onInterval_stopped (st : AppState) :
  intervalInstalled st = false -> onInterval st = st.
Proof. intros H; unfold onInterval; now rewrite H. Qed.

Lemma ticks_stopped (n : nat) (st : AppState) :
  intervalInstalled st = false -> ticks n st = st.
Proof.
  induction n as [|n IH]; intros H; simpl; [reflexivity|].
  rewrite (onInterval_stopped st H). now apply IH.
Qed.

Lemma pending_nonempty_dec (st : AppState) : pending st = "" \/ pending st <> "".
Proof. destruct (pending st); [left; reflexivity | right; discriminate]. Qed.

Lemma onInterval_consuming (st : AppState) :
  consuming st -> consuming (onInterval st).
Proof.
  intros [Htyping Hnet].
  destruct (tick_live st Htyping) as (_ & _ & Hnet' & Hmove & Hidle & _).
  destruct (pending_nonempty_dec st) as [He | Hne].
  - rewrite (Hidle He Hnet). split; assumption.
  - split; [apply (Hmove Hne) | congruence].
Qed.

Lemma onInterval_settled (st : AppState) :
  settled st -> settled (onInterval st).
Proof.
  intros [Htyping | [Hstop Hempty]].
  - destruct (tick_live st Htyping) as (Hpend & _ & _ & Hmove & Hidle & Hterm).
    destruct (pending_nonempty_dec st) as [He | Hne].
    + destruct (isNetworkStreaming st) eqn:Hnet.
      * rewrite (Hidle He eq_refl). now left.
      * right. destruct (Hterm He eq_refl) as (_ & Hproc & _). split.
        -- unfold intervalInstalled. now rewrite Hproc.
        -- rewrite Hpend, He. now destruct (charsToTake _).
    + left. apply (Hmove Hne).
  - right. rewrite (onInterval_stopped st Hstop). split; assumption.
Qed.

(** No character is lost or duplicated by a firing of the timer. *)
Lemma onInterval_conserves (st : AppState) :
  settled st ->
  revealed (onInterval st) ++ pending (onInterval st) = revealed st ++ pending st.
Proof.
  intros [Htyping | [Hstop _]].
  - destruct (tick_live st Htyping) as (Hpend & Hrev & _).
    rewrite Hpend, Hrev, append_assoc, slice_split. reflexivity.
  - now rewrite (onInterval_stopped st Hstop).
Qed.

Lemma appendChunk_consuming (chunkText : option string) (st : AppState) :
  consuming st -> consuming (appendChunk chunkText st).
Proof. intros H; exact H. Qed.

Lemma runStreaming_consuming (evs : list StreamingEvent) :
  forall st, consuming st ->
    consuming (runStreaming evs st)
    /\ revealed (runStreaming evs st) ++ pending (runStreaming evs st)
       = revealed st ++ pending st ++ arrivedText evs.
Proof.
  induction evs as [|ev evs IH]; intros st Hst.
  - simpl. split; [exact Hst | now rewrite append_nil_r].
  - change (runStreaming (ev :: evs) st)
      with (runStreaming evs (streamingStep st ev)).
    destruct ev as [chunkText|]; cbn [streamingStep].
    + destruct (IH _ (appendChunk_consuming chunkText st Hst)) as [Hc Heq].
      split; [exact Hc|]. rewrite Heq.
      unfold revealed, pending; simpl.
      destruct chunkText as [t|]; simpl.
      * now rewrite append_assoc.
      * now rewrite append_nil_r.
    + destruct (IH _ (onInterval_consuming st Hst)) as [Hc Heq].
      split; [exact Hc|]. rewrite Heq.
      rewrite <- !append_assoc.
      rewrite (onInterval_conserves st (or_introl (proj1 Hst))). reflexivity.
Qed.

Lemma endStream_settled (ending : StreamEnd) (st : AppState) :
  consuming st ->
  let st' := fst (endStream ending st) in
  typing st' /\ isNetworkStreaming st' = false
  /\ revealed st' = revealed st /\ pending st' = pending st ++ endText ending.
Proof.
  intros [Htyping _]. destruct ending; simpl;
    unfold pending, revealed; simpl; repeat split;
    try apply Htyping; try reflexivity.
  now rewrite append_nil_r.
Qed.

Lemma ticks_settled (n : nat) :
  forall st, settled st ->
    settled (ticks n st)
    /\ revealed (ticks n st) ++ pending (ticks n st) = revealed st ++ pending st.
Proof.
  induction n as [|n IH]; intros st Hst; simpl.
  - split; [exact Hst | reflexivity].
  - destruct (IH _ (onInterval_settled st Hst)) as [Hs Heq].
    split; [exact Hs|]. rewrite Heq. now apply onInterval_conserves.
Qed.

(** With no arrival in between, the backlog after [n] firings depends on
    its length alone. *)
Lemma ticks_backlog (n : nat) :
  forall st, settled st ->
    String.length (pending (ticks n st)) = backlogAfter n (String.length (pending st)).
Proof.
  induction n as [|n IH]; intros st Hst; simpl; [reflexivity|].
  rewrite (IH _ (onInterval_settled st Hst)). f_equal.
  destruct Hst as [Htyping | [Hstop Hempty]].
  - destruct (tick_live st Htyping) as (Hpend & _).
    rewrite Hpend. apply length_sliceFrom.
  - rewrite (onInterval_stopped st Hstop), Hempty. reflexivity.
Qed.

Lemma session_typing (userText : string) (st0 : AppState)
    (evs : list StreamingEvent) (ending : option StreamEnd) :
  let st := session userText st0 evs ending in
  typing st
  /\ revealed st ++ pending st = appended evs ending
  /\ sourceActive st = match ending with None => true | Some _ => false end.
Proof.
  unfold session, appended.
  set (s0 := fst (sendToAiBranch userText st0)).
  destruct (sendToAi_consuming userText st0) as (Hc & Hrev & Hpend).
  fold s0 in Hc, Hrev, Hpend.
  destruct (runStreaming_consuming evs s0 Hc) as [Hrun Heq].
  rewrite Hrev, Hpend in Heq; simpl in Heq.
  destruct ending as [e|]; cbv zeta.
  - destruct (endStream_settled e _ Hrun) as (Ht & Hnet & Hr & Hp).
    split; [exact Ht|]. split; [|exact Hnet].
    rewrite Hr, Hp, <- append_assoc, Heq. reflexivity.
  - split; [apply Hrun|]. split; [|apply Hrun].
    now rewrite append_nil_r.
Qed.

Lemma ticks_session (userText : string) (st0 : AppState)
    (evs : list StreamingEvent) (ending : option StreamEnd) (n : nat) :
  let st := ticks n (session userText st0 evs ending) in
  settled st /\ revealed st ++ pending st = appended evs ending.
Proof.
  destruct (session_typing userText st0 evs ending) as (Ht & Heq & _).
  destruct (ticks_settled n _ (or_introl Ht)) as [Hs Hc].
  split; [exact Hs | now rewrite Hc].
Qed.


Lemma ticks_succ_r (n : nat) : forall st, ticks (S n) st = onInterval (ticks n st).
Proof.
  induction n as [|n IH]; intros st; [reflexivity|].
  change (ticks (S (S n)) st) with (ticks (S n) (onInterval st)).
  rewrite IH. reflexivity.
Qed.

Lemma onInterval_network (st : AppState) :
  isNetworkStreaming (onInterval st) = isNetworkStreaming st.
Proof.
  unfold onInterval, tick.
  destruct (intervalInstalled st); [|reflexivity].
  destruct (0 <? _); [reflexivity|].
  destruct (negb _ && _); reflexivity.
Qed.

Lemma ticks_network (n : nat) :
  forall st, isNetworkStreaming (ticks n st) = isNetworkStreaming st.
Proof.
  induction n as [|n IH]; intros st; simpl; [reflexivity|].
  rewrite IH. apply onInterval_network.
Qed.

(** The typewriter stays live for as long as a backlog remains. *)
Lemma ticks_typing (k : nat) :
  forall st, typing st ->
    (forall j, j < k -> backlogAfter j (String.length (pending st)) <> 0) ->
    typing (ticks k st).
Proof.
  induction k as [|k IH]; intros st Ht Hback; simpl; [exact Ht|].
  destruct (tick_live st Ht) as (Hpend & _ & _ & Hmove & _).
  assert (Hne : pending st <> "").
  { intros He. apply (Hback 0); [lia|]. now rewrite He. }
  apply IH; [apply (Hmove Hne)|].
  intros j Hj. rewrite Hpend, length_sliceFrom.
  apply (Hback (S j)). lia.
Qed.

Lemma lastMessage_inv (msgs : list Message) (m : Message) :
  lastMessage msgs = Some m -> msgs = (removelast msgs ++ [m])%list.
Proof.
  intros Hlast.
  assert (Hne : msgs <> []) by (intros ->; discriminate).
  pose proof (app_removelast_last m Hne) as Hsplit.
  rewrite Hsplit, lastMessage_push in Hlast.
  injection Hlast as Hm. now rewrite Hm in Hsplit.
Qed.

Lemma updateStreaming_stop_texts (msgs : list Message) :
  map text (updateStreaming stopStreaming msgs) = map text msgs
  /\ lastMessage (updateStreaming stopStreaming msgs)
     = option_map stopStreaming (lastMessage msgs).
Proof.
  unfold updateStreaming.
  destruct (lastMessage msgs) as [m|] eqn:Hlast; [|split; [reflexivity|]; now rewrite Hlast].
  pose proof (lastMessage_inv msgs m Hlast) as Hsplit.
  destruct (isStreaming m) eqn:Hs.
  - rewrite lastMessage_push. split; [|reflexivity].
    rewrite Hsplit at 2. rewrite !map_app. reflexivity.
  - rewrite Hlast. split; [reflexivity|]. simpl. f_equal.
    destruct m; simpl in *; subst; reflexivity.
Qed.

Lemma updateStreaming_stop_twice (msgs : list Message) :
  updateStreaming stopStreaming (updateStreaming stopStreaming msgs)
  = updateStreaming stopStreaming msgs.
Proof.
  destruct (updateStreaming_stop_texts msgs) as [_ Hlast].
  unfold updateStreaming at 1. rewrite Hlast.
  destruct (lastMessage msgs); reflexivity.
Qed.

(** The reveal goes to the last message of the log.  When that is not the
    streaming placeholder, the callback still shortens the buffer and the
    log keeps its texts. *)
Remark tick_without_placeholder (st : AppState) (m : Message) :
  lastMessage (messages st) = Some m -> isStreaming m = false ->
  pending st <> "" ->
  messages (fst (tick st)) = messages st
  /\ pending (fst (tick st))
     = Js.sliceFrom (charsToTake (String.length (pending st))) (pending st).
Proof.
  unfold pending. intros Hlast Hs Hne. unfold tick.
  destruct (streamingBuffer st) as [|c buf]; [contradiction|].
  cbn [String.length Nat.ltb Nat.leb fst]. split; [|reflexivity].
  cbn [messages setMessages setStreamingBuffer].
  unfold updateStreaming. now rewrite Hlast, Hs.
Qed.

End Coordinator.

(** ** Claims about the stream coordinator *)

Section CoordinatorClaims.

Import App Spec.


(** C5.  Chunks join the back of the pending buffer in arrival order and
    leave it from the front: an arrival extends the buffer at its end and
    leaves the revealed text alone, a firing of the timer moves a front
    piece of at most three characters to the end of the revealed text, and
    at every moment the revealed text is a prefix of the concatenation of
    the appended chunks in arrival order. *)
Theorem revealed_prefix_of_arrivals
    (userText : string) (st0 : AppState) (evs : list StreamingEvent)
    (ending : option StreamEnd) (n : nat) :
  let st := ticks n (session userText st0 evs ending) in
  String.prefix (revealed st) (appended evs ending) = true
  /\ (forall chunkText,
        pending (appendChunk chunkText st)
        = pending st ++ match chunkText with Some t => t | None => "" end
        /\ revealed (appendChunk chunkText st) = revealed st)
  /\ (exists delta,
        pending st = delta ++ pending (onInterval st)
        /\ revealed (onInterval st) = revealed st ++ delta
        /\ String.length delta <= 3).
Proof.
  intros st.
  destruct (ticks_session userText st0 evs ending n) as [Hs Heq].
  fold st in Hs, Heq.
  split; [rewrite <- Heq; apply prefix_append|].
  split; [intros chunkText; split; reflexivity|].
  destruct Hs as [Ht | [Hstop Hempty]].
  - destruct (tick_live st Ht) as (Hpend & Hrev & _).
    exists (Js.sliceTo (charsToTake (String.length (pending st))) (pending st)).
    split; [rewrite Hpend; symmetry; apply slice_split|].
    split; [exact Hrev|].
    destruct (pending_nonempty_dec st) as [He | Hne].
    + rewrite He. simpl. lia.
    + rewrite length_sliceTo.
      * unfold charsToTake.
        destruct (150 <? _); [lia|]. destruct (50 <? _); lia.
      * apply charsToTake_bounds. destruct (pending st); [contradiction | simpl; lia].
  - exists "". rewrite (onInterval_stopped st Hstop), append_nil_r.
    repeat split; simpl; lia.
Qed.

(** C4.  When the source is closed and nothing is pending, the timer
    callback takes its terminal branch; it leaves the pending buffer, the
    source flag and every message text as they were; running it again
    gives the same state and the same answer; and it uninstalls the
    interval, so that no later firing reveals anything. *)
Theorem terminal_tick_idempotent (st : AppState) :
  sourceActive st = false -> pending st = "" ->
  let st' := fst (tick st) in
  snd (tick st) = Terminal
  /\ pending st' = pending st
  /\ sourceActive st' = sourceActive st
  /\ revealed st' = revealed st
  /\ map text (messages st') = map text (messages st)
  /\ tick st' = (st', Terminal)
  /\ intervalInstalled st' = false
  /\ (forall n, ticks n st' = st').
Proof.
  unfold sourceActive, pending. intros Hnet Hbuf.
  assert (Htick : tick st = (setMessages (updateStreaming stopStreaming)
                               (setIsProcessing false st), Terminal)).
  { unfold tick. now rewrite Hbuf, Hnet. }
  rewrite Htick; cbn [fst snd].
  destruct (updateStreaming_stop_texts (messages st)) as [Htexts Hlast].
  split; [reflexivity|]. split; [reflexivity|]. split; [reflexivity|].
  split.
  { unfold revealed; simpl. rewrite Hlast.
    destruct (lastMessage (messages st)); reflexivity. }
  split; [exact Htexts|].
  split.
  { unfold tick; simpl. rewrite Hbuf, Hnet; simpl.
    unfold setMessages; simpl. rewrite updateStreaming_stop_twice. reflexivity. }
  split; [reflexivity|].
  intros n. apply ticks_stopped. reflexivity.
Qed.

(** C3.  If the remote call or the iteration over its stream throws,
    whatever had arrived before and however far the typewriter had got, the
    handler appends a new line and the bracketed [[ERROR: ...]] fragment
    after the partial content, marks the source closed and settles
    normally; the timer then drains the buffer in [ticksToDrain] firings,
    is still installed at that point, and its next firing takes the
    terminal branch, leaving the revealed text equal to the partial content
    followed by the fragment. *)
Theorem stream_failure_reaches_terminal
    (userText : string) (st0 : AppState) (evs : list StreamingEvent)
    (error : Thrown) :
  let st1 := session userText st0 evs None in
  let st2 := fst (endStream (StreamThrows error) st1) in
  let n := ticksToDrain (String.length (pending st2)) in
  let st3 := ticks (S n) st2 in
  snd (endStream (StreamThrows error) st1) = Fulfilled
  /\ pending st2 = pending st1 ++ errorFragment error
  /\ revealed st2 = revealed st1
  /\ (exists detail,
        errorFragment error = Js.newline ++ "[ERROR: " ++ detail ++ "]")
  /\ sourceActive st2 = false
  /\ intervalInstalled (ticks n st2) = true
  /\ tick (ticks n st2) = (st3, Terminal)
  /\ terminal st3
  /\ isProcessing st3 = false
  /\ revealed st3 = arrivedText evs ++ errorFragment error
  /\ (forall k, ticks k st3 = st3).
Proof.
  intros st1 st2 n st3.
  destruct (session_typing userText st0 evs (Some (StreamThrows error)))
    as (Ht2 & Heq2 & Hnet2).
  change (session userText st0 evs (Some (StreamThrows error))) with st2 in *.
  split; [reflexivity|]. split; [reflexivity|]. split; [reflexivity|].
  split.
  { exists ("CONNECTION FAILED - "
            ++ match error with ErrorInstance message => message
                              | OtherValue => "UNKNOWN" end).
    destruct error; reflexivity. }
  split; [exact Hnet2|].
  assert (Htn : typing (ticks n st2)).
  { apply ticks_typing; [exact Ht2|]. intros j Hj Hz.
    apply ticksToDrain_exact in Hz. unfold n in Hj. lia. }
  assert (Hempty : pending (ticks n st2) = "").
  { apply length_zero_empty.
    rewrite (ticks_backlog n st2 (or_introl Ht2)).
    apply ticksToDrain_exact. unfold n. lia. }
  assert (Hnetn : isNetworkStreaming (ticks n st2) = false)
    by (rewrite ticks_network; exact Hnet2).
  destruct (tick_live _ Htn) as (Hpend & Hrev & _ & _ & _ & Hterm).
  destruct (Hterm Hempty Hnetn) as (Htick & Hproc & _).
  assert (H3 : st3 = onInterval (ticks n st2)) by apply ticks_succ_r.
  rewrite <- H3 in *.
  assert (Hp3 : pending st3 = "").
  { rewrite Hpend, Hempty. now destruct (charsToTake _). }
  assert (Hstop : intervalInstalled st3 = false)
    by (unfold intervalInstalled; now rewrite Hproc).
  split; [apply Htn|]. split; [exact Htick|].
  split.
  { split; [|exact Hp3]. unfold sourceActive, st3. rewrite ticks_network. exact Hnet2. }
  split; [exact Hproc|].
  split.
  { destruct (ticks_settled (S n) st2 (or_introl Ht2)) as [_ Hc].
    fold st3 in Hc. rewrite Hp3, append_nil_r, Heq2 in Hc. exact Hc. }
  intros k. apply ticks_stopped. exact Hstop.
Qed.

End CoordinatorClaims.

(** ** The message handler *)

Section Handler.

Import App Spec.

Variable executeFileSystemCommand : string -> string -> option FsResult.

Local Abbreviation handle := (handleSendMessage executeFileSystemCommand).

Lemma guard_true_iff (st : AppState) :
  guard st = true <-> Js.trim (inputValue st) = "" \/ isProcessing st = true.
Proof.
  unfold guard, Js.truthy. rewrite orb_true_iff, negb_true_iff, negb_false_iff.
  rewrite Nat.eqb_eq. split; intros [H|H]; auto; left.
  - now apply length_zero_empty.
  - now rewrite H.
Qed.

Lemma guard_false_iff (st : AppState) :
  guard st = false <-> Js.trim (inputValue st) <> "" /\ isProcessing st = false.
Proof.
  rewrite <- not_true_iff_false, guard_true_iff.
  destruct (isProcessing st); split.
  - intros H; exfalso; apply H; now right.
  - intros [_ H]; discriminate.
  - intros H; split; [|reflexivity]. intros He; apply H; now left.
  - intros [H _] [He|He]; [contradiction | discriminate].
Qed.

(** No branch touches the history or its cursor once they have been set. *)
Lemma branches_keep_history (userText commandLower : string) (route : Route)
    (st : AppState) :
  let st' := fst (dispatch route userText commandLower st) in
  history st' = history st /\ historyIndex st' = historyIndex st.
Proof.
  destruct route as [| |fsResult|]; simpl.
  - split; reflexivity.
  - destruct (isRbxHunt commandLower); split; reflexivity.
  - unfold fileSystemBranch. destruct (newPath fsResult) as [newDir|];
      [destruct (Js.truthy newDir)|]; split; reflexivity.
  - split; reflexivity.
Qed.

(** The handler's own order of tests, as a route. *)
Lemma handle_dispatch (st : AppState) :
  guard st = false ->
  let userText := inputValue st in
  let command := Js.trim userText in
  let commandLower := Js.toLowerCase command in
  let st1 := setHistoryIndex (-1)%Z (setHistory (addToHistory userText) st) in
  exists route,
    handle st
    = (fst (dispatch route userText commandLower st1),
       PlayKeystrokeSound :: snd (dispatch route userText commandLower st1))
    /\ route =
       if isClear commandLower then ResetCommand
       else if isRbxHunt commandLower then EasterEgg
       else match executeFileSystemCommand command (currentPath st) with
            | Some fsResult => FileSystemCommand fsResult
            | None => if isSudoRm commandLower then EasterEgg else RemoteChat
            end.
Proof.
  intros Hguard userText command commandLower st1.
  unfold handleSendMessage. rewrite Hguard.
  fold userText command commandLower st1.
  destruct (isClear commandLower) eqn:Hclear.
  { exists ResetCommand. split; reflexivity. }
  destruct (isRbxHunt commandLower) eqn:Hrbx.
  { exists EasterEgg. simpl. rewrite Hrbx. split; reflexivity. }
  destruct (executeFileSystemCommand command (currentPath st)) as [fsResult|].
  { exists (FileSystemCommand fsResult). simpl.
    destruct (fileSystemBranch userText commandLower fsResult st1). split; reflexivity. }
  destruct (isSudoRm commandLower) eqn:Hsudo.
  { exists EasterEgg. simpl. rewrite Hrbx. split; reflexivity. }
  exists RemoteChat. split; reflexivity.
Qed.

Lemma addToHistory_spec (userText : string) (prev : list string) :
  length (addToHistory userText prev) <= 50
  /\ exists evicted,
       (prev ++ [userText])%list = (evicted ++ addToHistory userText prev)%list
       /\ length evicted = length prev + 1 - 50.
Proof.
  unfold addToHistory, push.
  assert (Hlen : length (prev ++ [userText]) = length prev + 1)
    by (rewrite length_app; reflexivity).
  destruct (Nat.ltb_spec 50 (length (prev ++ [userText]))) as [Hbig | Hsmall].
  - split.
    + rewrite length_skipn. lia.
    + exists (firstn (length (prev ++ [userText]) - 50) (prev ++ [userText])).
      split; [now rewrite firstn_skipn|].
      rewrite length_firstn. lia.
  - split; [exact Hsmall|]. exists []. split; [reflexivity|]. simpl. lia.
Qed.

(** C10.  When the trimmed input is empty or a message is still being
    processed, the handler returns at once: the whole state, the input
    field included, is what it was, and nothing is asked of any
    collaborator (no sound, no timer, no remote call). *)
Theorem guarded_submission_is_noop (st : AppState) :
  Js.trim (inputValue st) = "" \/ isProcessing st = true ->
  handle st = (st, []).
Proof.
  intros H. apply guard_true_iff in H.
  unfold handleSendMessage. now rewrite H.
Qed.

(** C6.  After a submission that the handler accepts, the history is the
    old history followed by the raw input with the oldest entries dropped
    so that at most 50 remain, and the recall cursor is -1. *)
Theorem history_bounded_after_submission (st : AppState) :
  Js.trim (inputValue st) <> "" -> isProcessing st = false ->
  let st' := fst (handle st) in
  length (history st') <= 50
  /\ historyIndex st' = (-1)%Z
  /\ exists evicted,
       (history st ++ [inputValue st])%list = (evicted ++ history st')%list
       /\ length evicted = length (history st) + 1 - 50.
Proof.
  intros Hne Hidle.
  assert (Hguard : guard st = false) by (apply guard_false_iff; now split).
  destruct (handle_dispatch st Hguard) as (route & Heq & _).
  cbv zeta in *. rewrite Heq; cbn [fst].
  destruct (branches_keep_history (inputValue st)
              (Js.toLowerCase (Js.trim (inputValue st))) route
              (setHistoryIndex (-1)%Z
                 (setHistory (addToHistory (inputValue st)) st))) as [Hh Hi].
  cbv zeta in Hh, Hi. rewrite Hh, Hi. cbn [history historyIndex setHistoryIndex setHistory].
  destruct (addToHistory_spec (inputValue st) (history st)) as [Hlen Hev].
  split; [exact Hlen|]. split; [reflexivity | exact Hev].
Qed.

(** C2.  For every input the handler accepts, and provided the filesystem
    interpreter does not claim the [sudo rm -rf] commands (it answers
    [null] for verbs other than its five), the handler does exactly what
    the route of the specification prescribes: reset first, then the
    scripted sequences, then the filesystem, else the remote chat.  One
    branch runs and no other; the remote call is made only on the last
    route, with the raw input. *)
Theorem router_follows_priority (st : AppState) :
  Js.trim (inputValue st) <> "" -> isProcessing st = false ->
  let userText := inputValue st in
  let command := Js.trim userText in
  let commandLower := Js.toLowerCase command in
  (isSudoRm commandLower = true ->
   executeFileSystemCommand command (currentPath st) = None) ->
  let st1 := setHistoryIndex (-1)%Z (setHistory (addToHistory userText) st) in
  let route := classify executeFileSystemCommand command (currentPath st) in
  handle st
  = (fst (dispatch route userText commandLower st1),
     PlayKeystrokeSound :: snd (dispatch route userText commandLower st1))
  /\ (route = RemoteChat ->
        snd (handle st) = [PlayKeystrokeSound; SendMessageToGeminiStream userText]
        /\ consuming (fst (handle st)) /\ pending (fst (handle st)) = "")
  /\ (route <> RemoteChat -> ~ forwardsToRemote (snd (handle st))).
Proof.
  intros Hne Hidle userText command commandLower Hsudo st1 route.
  assert (Hguard : guard st = false) by (apply guard_false_iff; now split).
  destruct (handle_dispatch st Hguard) as (route' & Heq & Hroute).
  fold userText command commandLower st1 in Heq, Hroute.
  assert (Hsame : route' = route).
  { rewrite Hroute. unfold route, classify, isEasterEgg. fold commandLower.
    destruct (isClear commandLower); [reflexivity|].
    destruct (isRbxHunt commandLower); [reflexivity|]. simpl.
    destruct (isSudoRm commandLower) eqn:Hs.
    - now rewrite (Hsudo eq_refl).
    - reflexivity. }
  clear Hroute. rewrite Hsame in Heq. clear Hsame route'.
  split; [exact Heq|]. rewrite Heq. cbn [fst snd]. split.
  - intros Hr. rewrite Hr. split; [reflexivity|].
    destruct (sendToAi_consuming userText st1) as (Hc & _ & Hp). now split.
  - intros Hr [forwarded Hin].
    destruct Hin as [Hin | Hin]; [discriminate|].
    destruct route as [| |fsResult|]; [| | |contradiction]; simpl in Hin.
    + exact Hin.
    + destruct (isRbxHunt commandLower); simpl in Hin;
        repeat (destruct Hin as [Hin | Hin]; [discriminate|]); exact Hin.
    + unfold fileSystemBranch in Hin.
      destruct (newPath fsResult) as [newDir|];
        [destruct (Js.truthy newDir)|];
        destruct (Js.truthy (output fsResult));
        try destruct (_ || _); simpl in Hin;
        repeat (destruct Hin as [Hin | Hin]; [discriminate|]); exact Hin.
Qed.

(** C7, as the handler has it.  A submission of [clear] at an idle prompt
    empties the log and the input field, records the raw input in the
    history like any other submission and resets the cursor to -1; the
    buffer, the source flag, the typewriter flag and the current path stay
    as they were.  While a message is being processed the submission is
    ignored altogether, so a stream in flight keeps draining. *)
Theorem clear_empties_log_only (st : AppState) :
  Js.toLowerCase (Js.trim (inputValue st)) = "clear" ->
  let st' := fst (handle st) in
  (isProcessing st = true -> handle st = (st, []))
  /\ (isProcessing st = false ->
        snd (handle st) = [PlayKeystrokeSound]
        /\ messages st' = [] /\ inputValue st' = ""
        /\ history st' = addToHistory (inputValue st) (history st)
        /\ last (history st') "" = inputValue st
        /\ historyIndex st' = (-1)%Z
        /\ streamingBuffer st' = streamingBuffer st
        /\ isNetworkStreaming st' = isNetworkStreaming st
        /\ isTypewriterActive st' = isTypewriterActive st
        /\ isProcessing st' = false
        /\ currentPath st' = currentPath st).
Proof.
  intros Hclear st'. split.
  - intros Hbusy. unfold handleSendMessage, guard. rewrite Hbusy.
    now rewrite orb_true_r.
  - intros Hidle.
    assert (Hne : Js.trim (inputValue st) <> "").
    { intros He. rewrite He in Hclear. discriminate. }
    assert (Hguard : guard st = false) by (apply guard_false_iff; now split).
    unfold st', handleSendMessage. rewrite Hguard. cbv zeta.
    unfold isClear. rewrite Hclear. simpl.
    repeat split; try reflexivity; try exact Hidle.
    destruct (addToHistory_spec (inputValue st) (history st)) as [_ (evicted & Hev & _)].
    unfold addToHistory, push in *.
    destruct (50 <? length (history st ++ [inputValue st])) eqn:Hbig.
    + apply Nat.ltb_lt in Hbig.
      remember (history st ++ [inputValue st])%list as full eqn:Hfull.
      assert (Hskip : skipn (length full - 50) full <> []).
      { intros Hnil. apply (f_equal (@length string)) in Hnil.
        rewrite length_skipn in Hnil. simpl in Hnil. lia. }
      pose proof (app_removelast_last "" Hskip) as Hsplit.
      rewrite Hsplit in Hev. rewrite Hfull in Hev at 1.
      rewrite app_assoc in Hev. apply app_inj_tail in Hev.
      symmetry. apply Hev.
    + apply last_last.
Qed.

End Handler.

(** ** Tab completion *)

Section Completion.

Import App Spec.

Variable getFileSystemCompletions : string -> string -> list string.

Lemma split_space_shape (s : string) :
  (noSpace s = true /\ Js.split " " s = [s])
  \/ (noSpace s = false /\ exists h x t, Js.split " " s = h :: x :: t).
Proof.
  unfold Js.split.
  induction s as [|c s IH]; [left; split; reflexivity|].
  cbn [noSpace Js.splitOn].
  destruct (Ascii.eqb " " c) eqn:Hc; simpl.
  - right. split; [reflexivity|].
    destruct IH as [[_ ->] | [_ (h & x & t & ->)]]; eauto.
  - destruct IH as [[-> ->] | [-> (h & x & t & ->)]].
    + left. split; reflexivity.
    + right. split; [reflexivity|]. eauto.
Qed.

Lemma token_decomposition (s : string) : s = beforeLastToken s ++ lastToken s.
Proof.
  induction s as [|c s IH]; [reflexivity|].
  cbn [beforeLastToken lastToken].
  destruct (noSpace (String c s)); [reflexivity|].
  simpl. now rewrite <- IH.
Qed.

Lemma lastToken_noSpace (s : string) : noSpace (lastToken s) = true.
Proof.
  induction s as [|c s IH]; [reflexivity|].
  cbn [lastToken]. destruct (noSpace (String c s)) eqn:Hns; [exact Hns | exact IH].
Qed.

(** Splitting on spaces, replacing the last piece and joining again is the
    replacement of the last token. *)
Lemma split_replace_join (s : string) :
  last (Js.split " " s) "" = lastToken s
  /\ forall completed,
       Js.join " " (removelast (Js.split " " s) ++ [completed])
       = beforeLastToken s ++ completed.
Proof.
  induction s as [|c s [IHlast IHjoin]]; [split; reflexivity|].
  destruct (split_space_shape s) as [[Hns Hsplit] | [Hns (h & x & t & Hsplit)]].
  - (* no space further on *)
    unfold Js.split in *. cbn [Js.splitOn noSpace lastToken beforeLastToken].
    rewrite Hsplit, Hns in *.
    destruct (Ascii.eqb " " c) eqn:Hc; cbn [negb andb].
    + apply Ascii.eqb_eq in Hc; subst c. split.
      * exact IHlast.
      * intros completed. specialize (IHjoin completed). simpl in *.
        now rewrite <- IHjoin.
    + split; reflexivity.
  - (* a space further on *)
    unfold Js.split in *. cbn [Js.splitOn noSpace lastToken beforeLastToken].
    rewrite Hsplit, Hns in *. rewrite andb_false_r.
    destruct (Ascii.eqb " " c) eqn:Hc.
    + apply Ascii.eqb_eq in Hc; subst c. split.
      * exact IHlast.
      * intros completed. specialize (IHjoin completed).
        change (removelast ("" :: h :: x :: t)) with ("" :: removelast (h :: x :: t)).
        change (removelast (h :: x :: t)) with (h :: removelast (x :: t)) in *.
        unfold Js.join in *. cbn [app String.concat] in *.
        rewrite IHjoin. reflexivity.
    + split.
      * exact IHlast.
      * intros completed. specialize (IHjoin completed).
        change (removelast (String c h :: x :: t))
          with (String c h :: removelast (x :: t)).
        change (removelast (h :: x :: t)) with (h :: removelast (x :: t)) in *.
        unfold Js.join in *. cbn [app String.concat] in *.
        destruct (removelast (x :: t) ++ [completed])%list eqn:Hrest.
        { destruct (removelast (x :: t)); discriminate. }
        simpl. now rewrite <- IHjoin.
Qed.

(** C8, as the handler has it.  On Tab the handler looks up the last token
    of the input, the text after its last space, only when that token is
    not empty.  The token is then replaced by the completion exactly when
    the lookup answers with one name; when it answers with none or with
    several, and when the token is empty (empty input, or a blank at the
    end) so that no lookup is made, the state is left as it was. *)
Theorem tab_completes_single_match (st : AppState) :
  let partial := lastToken (inputValue st) in
  let before := beforeLastToken (inputValue st) in
  inputValue st = before ++ partial
  /\ noSpace partial = true
  /\ handleTab getFileSystemCompletions st
     = (if Js.truthy partial then
          match getFileSystemCompletions partial (currentPath st) with
          | [completed] => setInputValue (before ++ completed) st
          | _ => st
          end
        else st)
  /\ (length (getFileSystemCompletions partial (currentPath st)) <> 1 ->
      handleTab getFileSystemCompletions st = st).
Proof.
  intros partial before.
  destruct (split_replace_join (inputValue st)) as [Hlast Hjoin].
  assert (Heq : handleTab getFileSystemCompletions st
                = (if Js.truthy partial then
                     match getFileSystemCompletions partial (currentPath st) with
                     | [completed] => setInputValue (before ++ completed) st
                     | _ => st
                     end
                   else st)).
  { unfold handleTab. rewrite Hlast. fold partial.
    unfold Js.truthy. destruct partial as [|c p] eqn:Hp; [reflexivity|].
    cbn [String.length Nat.ltb Nat.leb Nat.eqb negb].
    destruct (getFileSystemCompletions _ _) as [|completed [|? ?]]; try reflexivity.
    now rewrite Hjoin. }
  split; [apply token_decomposition|].
  split; [apply lastToken_noSpace|].
  split; [exact Heq|].
  intros Hlen. rewrite Heq. destruct (Js.truthy partial); [|reflexivity].
  destruct (getFileSystemCompletions _ _) as [|completed [|? ?]];
    try reflexivity. now contradiction Hlen.
Qed.

End Completion.

(** ** The virtual filesystem *)

Section FileSystem.

Variable homePath whoamiOutput : string.
Variable renderListing : list (string * bool) -> string.
Variable renderError : string -> string -> Vfs.FsError -> string.

(** C9.  Whatever the tree under the root directory, resolving [..] at the
    root gives the root, [cd ..] there answers with the root as the new
    path and no error text, and repeating it any number of times stays at
    the root. *)
Theorem cd_parent_at_root_is_root (name : string) (children : list Vfs.FileSystemNode) :
  let root := Vfs.DirectoryNode name children in
  let cd := Vfs.execute homePath whoamiOutput renderListing renderError root in
  Vfs.resolvePath root "/" ".." = inr "/"
  /\ cd "cd .." "/" = Some {| output := ""; newPath := Some "/" |}
  /\ forall n,
       Nat.iter n (fun path =>
                     match cd "cd .." path with
                     | Some {| newPath := Some path' |} => path'
                     | _ => path
                     end) "/" = "/".
Proof.
  intros root cd.
  split; [reflexivity|]. split; [reflexivity|].
  induction n as [|n IH]; [reflexivity|].
  simpl. rewrite IH. reflexivity.
Qed.

End FileSystem.

(** ** The interpreter of the specification and the scripted deletion *)

Section Interpreter.

Import App Spec.

Variable homePath whoamiOutput : string.
Variable renderListing : list (string * bool) -> string.
Variable renderError : string -> string -> Vfs.FsError -> string.

Lemma lowerChar_whiteSpace (c : ascii) :
  Js.isWhiteSpace (Js.lowerChar c) = Js.isWhiteSpace c.
Proof. destruct c as [[] [] [] [] [] [] [] []]; reflexivity. Qed.

Lemma isSudoRm_prefix (commandLower : string) :
  isSudoRm commandLower = true -> exists rest, commandLower = "sudo " ++ rest.
Proof.
  unfold isSudoRm. rewrite orb_true_iff. intros [Heq | Hpre].
  - apply String.eqb_eq in Heq. subst. now exists "rm -rf".
  - unfold Js.startsWith in Hpre. apply String.prefix_correct in Hpre.
    destruct commandLower as [|c1 [|c2 [|c3 [|c4 [|c5 rest]]]]];
      simpl in Hpre; try discriminate.
    injection Hpre as -> -> -> -> -> _. now exists rest.
Qed.

Lemma splitOn_cons (isSep : ascii -> bool) (s : string) :
  exists piece rest, Js.splitOn isSep s = piece :: rest.
Proof.
  induction s as [|c s (piece & rest & IH)]; simpl; [eauto|].
  destruct (isSep c); [eauto|]. rewrite IH. eauto.
Qed.

(** A command line that lower-cases to [sudo ...] has a first token of four
    characters, which is none of the five verbs. *)
Lemma interpreter_rejects_sudo (root : Vfs.FileSystemNode) (command path : string) :
  isSudoRm (Js.toLowerCase command) = true ->
  Vfs.execute homePath whoamiOutput renderListing renderError root command path
  = None.
Proof.
  intros Hsudo. destruct (isSudoRm_prefix _ Hsudo) as [rest Hlower].
  destruct command as [|c1 [|c2 [|c3 [|c4 [|c5 tail]]]]]; try discriminate.
  simpl in Hlower. injection Hlower as H1 H2 H3 H4 H5 _.
  assert (W1 : Js.isWhiteSpace c1 = false) by now rewrite <- lowerChar_whiteSpace, H1.
  assert (W2 : Js.isWhiteSpace c2 = false) by now rewrite <- lowerChar_whiteSpace, H2.
  assert (W3 : Js.isWhiteSpace c3 = false) by now rewrite <- lowerChar_whiteSpace, H3.
  assert (W4 : Js.isWhiteSpace c4 = false) by now rewrite <- lowerChar_whiteSpace, H4.
  assert (W5 : Js.isWhiteSpace c5 = true) by now rewrite <- lowerChar_whiteSpace, H5.
  unfold Vfs.execute, Vfs.tokens. cbn [Js.splitOn].
  rewrite W1, W2, W3, W4, W5.
  destruct (splitOn_cons Js.isWhiteSpace tail) as (piece & more & ->).
  cbn [filter Js.truthy String.length Nat.eqb negb].
  set (verb := String c1 (String c2 (String c3 (String c4 "")))).
  assert (Hverb : forall v, String.length v <> 4 -> String.eqb verb v = false).
  { intros v Hlen. apply String.eqb_neq. intros <-. now apply Hlen. }
  rewrite !Hverb by (simpl; lia). reflexivity.
Qed.

(** With the interpreter of the specification in the place of
    [executeFileSystemCommand], whatever the tree and the rendering, the
    handler's order of tests and the order of the specification give the
    same route for every input. *)
Corollary router_on_specified_interpreter (root : Vfs.FileSystemNode) (st : AppState) :
  let execute :=
    Vfs.execute homePath whoamiOutput renderListing renderError root in
  let userText := inputValue st in
  let commandLower := Js.toLowerCase (Js.trim userText) in
  guard st = false ->
  handleSendMessage execute st
  = (fst (dispatch (classify execute (Js.trim userText) (currentPath st))
            userText commandLower
            (setHistoryIndex (-1)%Z (setHistory (addToHistory userText) st))),
     PlayKeystrokeSound
     :: snd (dispatch (classify execute (Js.trim userText) (currentPath st))
               userText commandLower
               (setHistoryIndex (-1)%Z (setHistory (addToHistory userText) st)))).
Proof.
  intros execute userText commandLower Hguard.
  destruct (handle_dispatch execute st Hguard) as (route & Heq & Hroute).
  fold userText commandLower in Heq, Hroute.
  replace (classify execute (Js.trim userText) (currentPath st)) with route;
    [exact Heq|].
  rewrite Hroute. unfold classify, isEasterEgg. fold commandLower.
  destruct (isClear commandLower); [reflexivity|].
  destruct (isRbxHunt commandLower); [reflexivity|]. simpl.
  destruct (isSudoRm commandLower) eqn:Hsudo; [|reflexivity].
  unfold execute. now rewrite (interpreter_rejects_sudo root _ _ Hsudo).
Qed.

End Interpreter.

(** ** The theorems at concrete inputs *)

Section Instances.

Import App Spec Fixtures.

Lemma guarded_submission_is_noop_witness :
  (Js.trim (inputValue blankInput) = "" \/ isProcessing blankInput = true)
  /\ handleSendMessage Vfs.fixtureExecute blankInput = (blankInput, [])
  /\ (Js.trim (inputValue streamingClear) = ""
      \/ isProcessing streamingClear = true)
  /\ handleSendMessage Vfs.fixtureExecute streamingClear = (streamingClear, []).
Proof.
  split; [left; reflexivity|].
  split; [apply (guarded_submission_is_noop Vfs.fixtureExecute blankInput);
          left; reflexivity|].
  split; [right; reflexivity|].
  apply (guarded_submission_is_noop Vfs.fixtureExecute streamingClear).
  right; reflexivity.
Defined.

Lemma history_bounded_after_submission_witness :
  Js.trim (inputValue fullHistory) <> ""
  /\ isProcessing fullHistory = false
  /\ length (history (send fullHistory)) <= 50
  /\ historyIndex (send fullHistory) = (-1)%Z
  /\ exists evicted,
       (history fullHistory ++ [inputValue fullHistory])%list
       = (evicted ++ history (send fullHistory))%list
       /\ length evicted = length (history fullHistory) + 1 - 50.
Proof.
  assert (Hne : Js.trim (inputValue fullHistory) <> "") by discriminate.
  split; [exact Hne|]. split; [reflexivity|].
  exact (history_bounded_after_submission Vfs.fixtureExecute fullHistory
           Hne eq_refl).
Defined.

Lemma router_follows_priority_witness :
  Js.trim (inputValue sudoTyped) <> ""
  /\ isProcessing sudoTyped = false
  /\ (isSudoRm (Js.toLowerCase (Js.trim (inputValue sudoTyped))) = true ->
      Vfs.fixtureExecute (Js.trim (inputValue sudoTyped)) (currentPath sudoTyped)
      = None)
  /\ classify Vfs.fixtureExecute (Js.trim (inputValue sudoTyped))
       (currentPath sudoTyped) = EasterEgg
  /\ ~ forwardsToRemote (snd (handleSendMessage Vfs.fixtureExecute sudoTyped)).
Proof.
  assert (Hne : Js.trim (inputValue sudoTyped) <> "") by discriminate.
  assert (Hfs : isSudoRm (Js.toLowerCase (Js.trim (inputValue sudoTyped))) = true ->
                Vfs.fixtureExecute (Js.trim (inputValue sudoTyped))
                  (currentPath sudoTyped) = None) by (intros _; reflexivity).
  split; [exact Hne|]. split; [reflexivity|]. split; [exact Hfs|].
  split; [reflexivity|].
  apply (router_follows_priority Vfs.fixtureExecute sudoTyped Hne eq_refl Hfs).
  discriminate.
Defined.

Lemma clear_empties_log_only_witness :
  Js.toLowerCase (Js.trim (inputValue idleClear)) = "clear"
  /\ isProcessing idleClear = false
  /\ messages (send idleClear) = []
  /\ history (send idleClear) = ["ls"; "clear"]
  /\ streamingBuffer (send idleClear) = streamingBuffer idleClear.
Proof.
  split; [reflexivity|]. split; [reflexivity|].
  destruct (clear_empties_log_only Vfs.fixtureExecute idleClear eq_refl)
    as [_ Hidle].
  destruct (Hidle eq_refl) as (_ & Hm & _ & Hh & _ & _ & Hb & _).
  split; [exact Hm|]. split; [exact Hh | exact Hb].
Defined.

Lemma terminal_tick_idempotent_witness :
  sourceActive drained = false
  /\ pending drained = ""
  /\ snd (tick drained) = Terminal
  /\ revealed (fst (tick drained)) = "hi"
  /\ tick (fst (tick drained)) = (fst (tick drained), Terminal)
  /\ (forall n, ticks n (fst (tick drained)) = fst (tick drained)).
Proof.
  split; [reflexivity|]. split; [reflexivity|].
  destruct (terminal_tick_idempotent drained eq_refl eq_refl)
    as (Hterm & _ & _ & Hrev & _ & Hagain & _ & Hstay).
  split; [exact Hterm|]. split; [rewrite Hrev; reflexivity|].
  split; [exact Hagain | exact Hstay].
Defined.

(** C7 as the specification words it fails.  At the idle prompt [clear]
    joins the history instead of emptying it; while a reply is streaming
    the submission changes nothing, and the next firing of the timer goes
    on revealing the reply. *)
Lemma clear_does_not_discard_session :
  history (send idleClear) = ["ls"; "clear"]
  /\ handleSendMessage Vfs.fixtureExecute streamingClear = (streamingClear, [])
  /\ pending (send streamingClear) = "abc"
  /\ revealed (onInterval (send streamingClear)) = "a"
  /\ pending (onInterval (send streamingClear)) = "bc"
  /\ ~ clearDiscardsSession Vfs.fixtureExecute.
Proof.
  repeat (split; [reflexivity|]).
  intros Hclaim.
  destruct (Hclaim streamingClear eq_refl) as (Hh & _).
  discriminate Hh.
Qed.

(** C8 as the specification words it fails.  In [/home], whose only entry
    is [operator], the input [o ] ends with a blank: its last word [o] has
    exactly one completion, and so has the empty text after the blank, yet
    Tab leaves the input as it is. *)
Lemma tab_after_blank_not_completed :
  last (Vfs.tokens (inputValue tabTrailingBlank)) "" = "o"
  /\ Vfs.fixtureComplete "o" (currentPath tabTrailingBlank) = ["operator"]
  /\ lastToken (inputValue tabTrailingBlank) = ""
  /\ Vfs.fixtureComplete "" (currentPath tabTrailingBlank) = ["operator"]
  /\ inputValue (handleTab Vfs.fixtureComplete tabTrailingBlank) = "o "
  /\ ~ completesOnSingleMatch Vfs.fixtureComplete tabTrailingBlank.
Proof.
  repeat (split; [reflexivity|]).
  intros [Hreplace _].
  specialize (Hreplace "operator" eq_refl).
  apply (f_equal inputValue) in Hreplace. discriminate Hreplace.
Qed.

(** A message added to the log while a reply is streaming takes the place
    of the placeholder: the next firing drops a character. *)
Example overtaken_reply_loses_text :
  pending overtaken = "abc"
  /\ pending (onInterval overtaken) = "bc"
  /\ map text (messages (onInterval overtaken)) = map text (messages overtaken).
Proof. repeat split; reflexivity. Qed.

(** Two hundred characters arriving at once drain in 116 firings. *)
Example drain_of_200 : ticksToDrain 200 = 116.
Proof. reflexivity. Qed.

(** [cd do] completes to [cd docs]; after a blank no lookup is made. *)
Example tab_examples :
  inputValue (handleTab Vfs.fixtureComplete tabTyped) = "cd docs"
  /\ Vfs.fixtureComplete "" (currentPath tabAfterBlank) = ["operator"]
  /\ handleTab Vfs.fixtureComplete tabAfterBlank = tabAfterBlank.
Proof. repeat split; reflexivity. Qed.

(** The end-to-end scenarios of the specification on the fixture. *)
Example filesystem_scenarios :
  Vfs.fixtureExecute "ls" "/home/operator"
  = Some {| output := "docs/" ++ Js.newline ++ "readme.txt"; newPath := None |}
  /\ Vfs.fixtureExecute "cd docs" "/home/operator"
     = Some {| output := ""; newPath := Some "/home/operator/docs" |}
  /\ Vfs.fixtureExecute "cd .." "/home/operator/docs"
     = Some {| output := ""; newPath := Some "/home/operator" |}
  /\ Vfs.fixtureExecute "hello there" "/home/operator" = None.
Proof. repeat split; reflexivity. Qed.

End Instances.

(** * Further properties of the component *)

(** ** The branches of the message handler *)

Section Branches.

Import App Spec.

Variable executeFileSystemCommand : string -> string -> option FsResult.

Local Abbreviation handle := (handleSendMessage executeFileSystemCommand).

Lemma accepted_guard (st : AppState) : accepted st -> guard st = false.
Proof. intros H. now apply guard_false_iff. Qed.

(** The five ways through the handler, each with the tests that lead to it. *)
Lemma handle_cases (st : AppState) :
  accepted st ->
  let userText := inputValue st in
  let command := Js.trim userText in
  let commandLower := Js.toLowerCase command in
  let st1 := setHistoryIndex (-1)%Z (setHistory (addToHistory userText) st) in
  let ran branch := handle st = (fst branch, PlayKeystrokeSound :: snd branch) in
  (isClear commandLower = true /\ ran (clearBranch st1))
  \/ (isClear commandLower = false /\ isRbxHunt commandLower = true
      /\ ran (rbxHuntBranch userText st1))
  \/ (isClear commandLower = false /\ isRbxHunt commandLower = false
      /\ exists fsResult,
           executeFileSystemCommand command (currentPath st) = Some fsResult
           /\ ran (fileSystemBranch userText commandLower fsResult st1))
  \/ (isClear commandLower = false /\ isRbxHunt commandLower = false
      /\ executeFileSystemCommand command (currentPath st) = None
      /\ isSudoRm commandLower = true /\ ran (sudoRmBranch userText st1))
  \/ (isClear commandLower = false /\ isRbxHunt commandLower = false
      /\ executeFileSystemCommand command (currentPath st) = None
      /\ isSudoRm commandLower = false /\ ran (sendToAiBranch userText st1)).
Proof.
  intros Hacc userText command commandLower st1 ran.
  destruct (handle_dispatch executeFileSystemCommand st (accepted_guard st Hacc))
    as (route & Heq & Hroute).
  fold userText command commandLower st1 in Heq, Hroute.
  unfold ran. rewrite Heq.
  destruct (isClear commandLower) eqn:Hclear.
  { left. subst route. split; reflexivity. }
  destruct (isRbxHunt commandLower) eqn:Hrbx.
  { right; left. subst route. simpl. rewrite Hrbx. repeat split; reflexivity. }
  destruct (executeFileSystemCommand command (currentPath st)) as [fsResult|].
  { right; right; left. subst route. repeat split. exists fsResult. split; reflexivity. }
  destruct (isSudoRm commandLower) eqn:Hsudo.
  { right; right; right; left. subst route. simpl. rewrite Hrbx.
    repeat split; reflexivity. }
  right; right; right; right. subst route. repeat split; reflexivity.
Qed.

Ltac branch_cases H :=
  destruct H as [[Hclear Hran] | [(Hclear & Hrbx & Hran)
    | [(Hclear & Hrbx & fsResult & Hfs & Hran)
    | [(Hclear & Hrbx & Hfs & Hsudo & Hran)
    | (Hclear & Hrbx & Hfs & Hsudo & Hran)]]]];
  cbv beta in Hran; rewrite Hran; cbn [fst snd].

(** Every accepted submission empties the input field.  [clear] empties
    the log; any other command leaves the earlier messages as they are and
    adds the raw input as a user message, followed on the remote path, and
    only there, by the empty streaming placeholder. *)
Theorem submission_clears_input_and_appends (st : AppState) :
  accepted st ->
  let st' := fst (handle st) in
  let commandLower := Js.toLowerCase (Js.trim (inputValue st)) in
  inputValue st' = ""
  /\ (isClear commandLower = true -> messages st' = [])
  /\ (isClear commandLower = false ->
      (messages st' = (messages st ++ [userMessage (inputValue st)])%list
       /\ ~ forwardsToRemote (snd (handle st)))
      \/ (messages st'
          = (messages st ++ [userMessage (inputValue st); aiPlaceholder])%list
          /\ snd (handle st)
             = [PlayKeystrokeSound; SendMessageToGeminiStream (inputValue st)])).
Proof.
  intros Hacc st' commandLower. unfold st'.
  pose proof (handle_cases st Hacc) as H. cbv zeta in H.
  fold commandLower in H.
  assert (Hno : forall effects,
             (forall e, In e effects -> exists a d, e = SetTimeout a d) ->
             ~ forwardsToRemote (PlayKeystrokeSound :: effects)).
  { intros effects Hall [u [Hu | Hu]]; [discriminate|].
    destruct (Hall _ Hu) as (a & d & Heq). discriminate. }
  branch_cases H.
  - split; [reflexivity|]. split; [reflexivity | congruence].
  - split; [reflexivity|]. split; [congruence|]. intros _. left.
    split; [reflexivity|]. apply Hno. intros e [<- | []]. eauto.
  - unfold fileSystemBranch.
    assert (Hout : forall e,
               In e (if Js.truthy (output fsResult)
                     then [SetTimeout (ShowSystemMessage (output fsResult)) 100]
                     else []) -> exists a d, e = SetTimeout a d).
    { destruct (Js.truthy (output fsResult)); intros e [<- | []] || intros e []; eauto. }
    destruct (newPath fsResult) as [newDir|]; [destruct (Js.truthy newDir)|];
      cbn [fst snd]; (split; [reflexivity|]); (split; [congruence|]); intros _; left;
      (split; [reflexivity|]); apply Hno; try exact Hout.
    intros e Hin. apply in_app_or in Hin. destruct Hin as [Hin | Hin]; [now apply Hout|].
    destruct (_ || _); [destruct Hin as [<- | []]; eauto | destruct Hin].
  - split; [reflexivity|]. split; [congruence|]. intros _. left.
    split; [reflexivity|]. apply Hno. intros e Hin. simpl in Hin.
    repeat (destruct Hin as [<- | Hin]; [eauto|]). destruct Hin.
  - split; [reflexivity|]. split; [congruence|]. intros _. right.
    split; [|reflexivity]. unfold sendToAiBranch, push; simpl.
    now rewrite <- app_assoc.
Qed.

(** The current path moves only on the filesystem branch, and there only
    to a new path that the interpreter returns and that is not empty. *)
Theorem submission_moves_path_only_on_cd (st : AppState) :
  accepted st ->
  let commandLower := Js.toLowerCase (Js.trim (inputValue st)) in
  currentPath (fst (handle st))
  = if isClear commandLower || isRbxHunt commandLower then currentPath st
    else match executeFileSystemCommand (Js.trim (inputValue st)) (currentPath st) with
         | Some {| newPath := Some newDir |} =>
             if Js.truthy newDir then newDir else currentPath st
         | _ => currentPath st
         end.
Proof.
  intros Hacc commandLower.
  pose proof (handle_cases st Hacc) as H. cbv zeta in H.
  fold commandLower in H.
  branch_cases H; rewrite ?Hclear, ?Hrbx, ?Hfs; cbn [orb]; try reflexivity.
  unfold fileSystemBranch. destruct fsResult as [out [newDir|]]; cbn [newPath output];
    [destruct (Js.truthy newDir)|]; reflexivity.
Qed.

(** A local command (clear, the scavenger hunt, a filesystem command) never
    locks the prompt; the scripted deletion locks it without starting the
    typewriter; the remote path locks it and starts the typewriter. *)
Theorem submission_locks_prompt_when_not_local (st : AppState) :
  accepted st ->
  let commandLower := Js.toLowerCase (Js.trim (inputValue st)) in
  let local :=
    isClear commandLower || isRbxHunt commandLower
    || match executeFileSystemCommand (Js.trim (inputValue st)) (currentPath st) with
       | Some _ => true
       | None => false
       end in
  isProcessing (fst (handle st)) = negb local
  /\ intervalInstalled (fst (handle st)) = negb local && negb (isSudoRm commandLower)
  /\ isNetworkStreaming (fst (handle st))
     = if negb local && negb (isSudoRm commandLower) then true
       else isNetworkStreaming st.
Proof.
  intros Hacc commandLower local. unfold local.
  pose proof (handle_cases st Hacc) as H. cbv zeta in H.
  fold commandLower in H. destruct Hacc as [_ Hidle].
  branch_cases H; rewrite ?Hclear, ?Hrbx, ?Hfs, ?Hsudo; cbn [orb negb andb];
    unfold intervalInstalled;
    try (unfold fileSystemBranch; destruct (newPath fsResult) as [newDir|];
         [destruct (Js.truthy newDir)|]);
    simpl; rewrite ?Hidle; repeat split; reflexivity.
Qed.

End Branches.

(** ** The scripted deletion and its timers *)

Section ScriptedDeletion.

Import App Spec.

Variable executeFileSystemCommand : string -> string -> option FsResult.

Local Abbreviation handle := (handleSendMessage executeFileSystemCommand).
Local Abbreviation fire := (fireAll executeFileSystemCommand).

Lemma busy_ignores_submission (st : AppState) :
  isProcessing st = true -> handle st = (st, []).
Proof.
  intros Hbusy. unfold handleSendMessage, guard. rewrite Hbusy.
  now rewrite orb_true_r.
Qed.

Lemma isSudoRm_not_other (commandLower : string) :
  isSudoRm commandLower = true ->
  isClear commandLower = false /\ isRbxHunt commandLower = false.
Proof.
  intros H. destruct (isSudoRm_prefix _ H) as [rest ->]. split; reflexivity.
Qed.

(** The scripted deletion, start to end.  The handler locks the prompt
    without starting the typewriter and sets seven timers.  While the six
    lines appear one after the other the prompt stays locked and every
    submission is ignored; the seventh timer replaces the whole log by the
    reboot message, unlocks the prompt and puts the current path back to
    the home directory.  The history keeps the command. *)
Theorem scripted_deletion_runs_to_reboot (st : AppState) :
  accepted st ->
  isSudoRm (Js.toLowerCase (Js.trim (inputValue st))) = true ->
  executeFileSystemCommand (Js.trim (inputValue st)) (currentPath st) = None ->
  let st1 := fst (handle st) in
  let queue := schedule (snd (handle st)) in
  map snd queue = [600; 1200; 1800; 2400; 2900; 3500; 5000]
  /\ (forall k, k <= 6 ->
      let during := fst (fire (firstn k queue) st1) in
      messages during
      = (messages st ++ userMessage (inputValue st)
           :: map systemMessage (firstn k (map fst sudoSequence)))%list
      /\ isProcessing during = true
      /\ intervalInstalled during = false
      /\ handle during = (during, []))
  /\ messages (fst (fire queue st1)) = [rebootMessage]
  /\ isProcessing (fst (fire queue st1)) = false
  /\ currentPath (fst (fire queue st1)) = "/home/operator"
  /\ inputValue (fst (fire queue st1)) = ""
  /\ history (fst (fire queue st1)) = addToHistory (inputValue st) (history st)
  /\ snd (fire queue st1) = [SetTimeout FocusInput 100].
Proof.
  intros Hacc Hsudo Hnone st1 queue.
  destruct (isSudoRm_not_other _ Hsudo) as [Hclear Hrbx].
  assert (Hrun : handle st
                 = (fst (sudoRmBranch (inputValue st)
                           (setHistoryIndex (-1)%Z
                              (setHistory (addToHistory (inputValue st)) st))),
                    PlayKeystrokeSound
                    :: snd (sudoRmBranch (inputValue st)
                              (setHistoryIndex (-1)%Z
                                 (setHistory (addToHistory (inputValue st)) st))))).
  { unfold handleSendMessage. rewrite (accepted_guard st Hacc). cbv zeta.
    now rewrite Hclear, Hrbx, Hnone, Hsudo. }
  unfold st1, queue. rewrite Hrun. cbn [fst snd].
  split; [reflexivity|]. split.
  - intros k Hk.
    assert (Hcases : k = 0 \/ k = 1 \/ k = 2 \/ k = 3 \/ k = 4 \/ k = 5 \/ k = 6) by lia.
    repeat (destruct Hcases as [-> | Hcases]); try subst k;
      (split; [simpl; unfold push; rewrite <- ?app_assoc; reflexivity|]);
      (split; [reflexivity|]); (split; [reflexivity|]);
      apply busy_ignores_submission; reflexivity.
  - repeat split; reflexivity.
Qed.

End ScriptedDeletion.

(** ** Recall of earlier commands *)

Section Recall.

Import App Spec.

Variable executeFileSystemCommand : string -> string -> option FsResult.
Variable getFileSystemCompletions : string -> string -> list string.

Lemma entryAt_in_range (entries : list string) (index : Z) :
  (0 <= index < Z.of_nat (length entries))%Z ->
  exists entry, entryAt entries index = Some entry.
Proof.
  intros Hrange. unfold entryAt.
  destruct (Z.ltb_spec index 0) as [Hneg | _]; [lia|].
  destruct (nth_error entries (Z.to_nat index)) as [entry|] eqn:Hnth; [eauto|].
  apply nth_error_None in Hnth. lia.
Qed.

Lemma recall_in_range (newIndex : Z) (st : AppState) :
  (0 <= newIndex < Z.of_nat (length (history st)))%Z ->
  exists entry,
    entryAt (history st) newIndex = Some entry
    /\ recall newIndex st = Some (setInputValue entry (setHistoryIndex newIndex st)).
Proof.
  intros Hrange. destruct (entryAt_in_range _ _ Hrange) as [entry Hentry].
  exists entry. split; [exact Hentry|]. unfold recall. now rewrite Hentry.
Qed.

Lemma handleTab_keeps_history (st : AppState) :
  history (handleTab getFileSystemCompletions st) = history st
  /\ historyIndex (handleTab getFileSystemCompletions st) = historyIndex st.
Proof.
  unfold handleTab. destruct (0 <? _); [|split; reflexivity].
  destruct (getFileSystemCompletions _ _) as [|completed [|? ?]]; split; reflexivity.
Qed.

Lemma handle_resets_cursor (st : AppState) :
  guard st = false ->
  historyIndex (fst (handleSendMessage executeFileSystemCommand st)) = (-1)%Z.
Proof.
  intros Hguard.
  destruct (handle_dispatch executeFileSystemCommand st Hguard) as (route & Heq & _).
  cbv zeta in Heq. rewrite Heq. cbn [fst].
  destruct (branches_keep_history (inputValue st)
              (Js.toLowerCase (Js.trim (inputValue st))) route
              (setHistoryIndex (-1)%Z
                 (setHistory (addToHistory (inputValue st)) st))) as [_ Hi].
  cbv zeta in Hi. now rewrite Hi.
Qed.

Lemma handle_bounds_history (st : AppState) :
  length (history st) <= 50 ->
  length (history (fst (handleSendMessage executeFileSystemCommand st))) <= 50.
Proof.
  intros Hbound. destruct (guard st) eqn:Hguard.
  - unfold handleSendMessage. now rewrite Hguard.
  - destruct (handle_dispatch executeFileSystemCommand st Hguard) as (route & Heq & _).
    cbv zeta in Heq. rewrite Heq. cbn [fst].
    destruct (branches_keep_history (inputValue st)
                (Js.toLowerCase (Js.trim (inputValue st))) route
                (setHistoryIndex (-1)%Z
                   (setHistory (addToHistory (inputValue st)) st))) as [Hh _].
    cbv zeta in Hh. rewrite Hh. cbn [history setHistoryIndex setHistory].
    apply addToHistory_spec.
Qed.

Lemma keys_keep_cursor (key : Key) (st : AppState) :
  cursorValid st ->
  exists st' effects,
    handleKeyDown executeFileSystemCommand getFileSystemCompletions key st
    = Some (st', effects)
    /\ cursorValid st'.
Proof.
  intros Hvalid. destruct key; cbn [handleKeyDown].
  - (* Enter *)
    exists (fst (handleSendMessage executeFileSystemCommand st)),
           (snd (handleSendMessage executeFileSystemCommand st)).
    split; [now rewrite <- surjective_pairing|].
    destruct (guard st) eqn:Hguard.
    + unfold handleSendMessage. now rewrite Hguard.
    + left. now apply handle_resets_cursor.
  - (* ArrowUp *)
    unfold handleArrowUp. destruct (Nat.ltb_spec 0 (length (history st))) as [Hpos | Hnil].
    + set (newIndex := if (historyIndex st =? -1)%Z then _ else _).
      assert (Hrange : (0 <= newIndex < Z.of_nat (length (history st)))%Z).
      { unfold newIndex. destruct (Z.eqb_spec (historyIndex st) (-1)); [lia|].
        destruct Hvalid as [Hfresh | Hin]; lia. }
      destruct (recall_in_range newIndex st Hrange) as (entry & _ & ->).
      eexists _, _. split; [reflexivity|]. right. exact Hrange.
    + eexists _, _. split; [reflexivity | exact Hvalid].
  - (* ArrowDown *)
    unfold handleArrowDown. destruct (Z.eqb_spec (historyIndex st) (-1)) as [Hfresh | Hset];
      cbn [negb].
    + eexists _, _. split; [reflexivity | exact Hvalid].
    + destruct Hvalid as [Hfresh | Hin]; [contradiction|].
      destruct (_ && _).
      * eexists _, _. split; [reflexivity|]. now left.
      * set (newIndex := Z.min _ _).
        assert (Hrange : (0 <= newIndex < Z.of_nat (length (history st)))%Z)
          by (unfold newIndex; lia).
        destruct (recall_in_range newIndex st Hrange) as (entry & _ & ->).
        eexists _, _. split; [reflexivity|]. right. exact Hrange.
  - (* Tab *)
    eexists _, _. split; [reflexivity|].
    destruct (handleTab_keeps_history st) as [Hh Hi].
    unfold cursorValid. now rewrite Hh, Hi.
  - eexists _, _. split; [reflexivity | exact Hvalid].
Qed.

Lemma recall_keeps_history (newIndex : Z) (st st' : AppState) :
  recall newIndex st = Some st' -> history st' = history st.
Proof.
  unfold recall. destruct (entryAt (history st) newIndex); [|discriminate].
  intros [= <-]. reflexivity.
Qed.

Lemma keys_keep_history_bounded (key : Key) (st st' : AppState) (effects : list Effect) :
  length (history st) <= 50 ->
  handleKeyDown executeFileSystemCommand getFileSystemCompletions key st
  = Some (st', effects) ->
  length (history st') <= 50.
Proof.
  intros Hbound Hkey. destruct key; cbn [handleKeyDown] in Hkey.
  - pose proof (handle_bounds_history st Hbound) as H.
    injection Hkey as Hst. rewrite Hst in H. exact H.
  - destruct (handleArrowUp st) as [up|] eqn:Hup; [|discriminate].
    injection Hkey as <- _. unfold handleArrowUp in Hup.
    destruct (0 <? length (history st)).
    + now rewrite (recall_keeps_history _ _ _ Hup).
    + injection Hup as <-. exact Hbound.
  - destruct (handleArrowDown st) as [down|] eqn:Hdown; [|discriminate].
    injection Hkey as <- _. unfold handleArrowDown in Hdown.
    destruct (negb _).
    + destruct (_ && _).
      * injection Hdown as <-. exact Hbound.
      * now rewrite (recall_keeps_history _ _ _ Hdown).
    + injection Hdown as <-. exact Hbound.
  - injection Hkey as <- _.
    destruct (handleTab_keeps_history st) as [Hh _]. now rewrite Hh.
  - injection Hkey as <- _. exact Hbound.
Qed.

(** Whatever keys are pressed, one after the other, from a state whose
    history has at most 50 entries and whose recall cursor is [-1] or
    points into the history: no key press hands the input field an entry
    that does not exist, the history never exceeds 50 entries, and the
    cursor stays [-1] or in range. *)
Theorem keys_keep_history_and_cursor (keys : list Key) (st : AppState) :
  cursorValid st -> length (history st) <= 50 ->
  exists st',
    pressKeys executeFileSystemCommand getFileSystemCompletions keys st = Some st'
    /\ cursorValid st'
    /\ length (history st') <= 50.
Proof.
  revert st. induction keys as [|key keys IH]; intros st Hvalid Hbound.
  - exists st. repeat split; assumption.
  - destruct (keys_keep_cursor key st Hvalid) as (st1 & effects & Hkey & Hvalid1).
    pose proof (keys_keep_history_bounded key st st1 effects Hbound Hkey) as Hbound1.
    cbn [pressKeys]. rewrite Hkey. now apply IH.
Qed.

Lemma addToHistory_newest (userText : string) (prev : list string) :
  entryAt (addToHistory userText prev)
          (Z.of_nat (length (addToHistory userText prev)) - 1)
  = Some userText.
Proof.
  assert (Hlast : nth_error (prev ++ [userText]) (length prev) = Some userText).
  { rewrite nth_error_app2 by lia. now rewrite Nat.sub_diag. }
  assert (Hlen : length (prev ++ [userText]) = length prev + 1)
    by (rewrite length_app; reflexivity).
  unfold entryAt, addToHistory, push. cbv zeta.
  destruct (Nat.ltb_spec 50 (length (prev ++ [userText]))) as [Hbig | Hsmall].
  - rewrite length_skipn.
    destruct (Z.ltb_spec
                (Z.of_nat (length (prev ++ [userText])
                           - (length (prev ++ [userText]) - 50)) - 1) 0); [lia|].
    rewrite nth_error_skipn. rewrite <- Hlast. f_equal. lia.
  - destruct (Z.ltb_spec (Z.of_nat (length (prev ++ [userText])) - 1) 0); [lia|].
    rewrite <- Hlast. f_equal. lia.
Qed.

(** ArrowUp right after an accepted submission brings back exactly what
    was typed, blanks included, and points the cursor at the newest entry
    of the history. *)
Theorem arrowUp_recalls_submission (st : AppState) :
  accepted st ->
  let sent := fst (handleSendMessage executeFileSystemCommand st) in
  exists recalled,
    handleArrowUp sent = Some recalled
    /\ inputValue recalled = inputValue st
    /\ historyIndex recalled = (Z.of_nat (length (history sent)) - 1)%Z
    /\ entryAt (history recalled) (historyIndex recalled) = Some (inputValue st).
Proof.
  intros Hacc sent.
  pose proof (accepted_guard st Hacc) as Hguard.
  assert (Hcursor : historyIndex sent = (-1)%Z) by now apply handle_resets_cursor.
  assert (Hhistory : history sent = addToHistory (inputValue st) (history st)).
  { unfold sent.
    destruct (handle_dispatch executeFileSystemCommand st Hguard) as (route & Heq & _).
    cbv zeta in Heq. rewrite Heq. cbn [fst].
    destruct (branches_keep_history (inputValue st)
                (Js.toLowerCase (Js.trim (inputValue st))) route
                (setHistoryIndex (-1)%Z
                   (setHistory (addToHistory (inputValue st)) st))) as [Hh _].
    cbv zeta in Hh. now rewrite Hh. }
  pose proof (addToHistory_newest (inputValue st) (history st)) as Hnewest.
  rewrite <- Hhistory in Hnewest.
  assert (Hpos : 0 < length (history sent)).
  { destruct (history sent); [discriminate Hnewest | simpl; lia]. }
  unfold handleArrowUp. destruct (Nat.ltb_spec 0 (length (history sent))); [|lia].
  rewrite Hcursor, Z.eqb_refl. unfold recall. rewrite Hnewest. cbn [option_map].
  eexists. split; [reflexivity|]. repeat split. exact Hnewest.
Qed.

Lemma arrowUp_from_entry (k : nat) :
  forall st,
    (0 <= historyIndex st < Z.of_nat (length (history st)))%Z ->
    exists entry,
      entryAt (history st) (Z.max 0 (historyIndex st - Z.of_nat (S k))) = Some entry
      /\ pressRepeatedly (S k) handleArrowUp st
         = Some (setInputValue entry
                   (setHistoryIndex (Z.max 0 (historyIndex st - Z.of_nat (S k))) st)).
Proof.
  induction k as [|k IH]; intros st Hrange.
  - cbn [pressRepeatedly]. unfold handleArrowUp.
    destruct (Nat.ltb_spec 0 (length (history st))); [|lia].
    destruct (Z.eqb_spec (historyIndex st) (-1)); [lia|].
    change (Z.of_nat 1) with 1%Z.
    assert (Hr : (0 <= Z.max 0 (historyIndex st - 1) < Z.of_nat (length (history st)))%Z) by lia.
    destruct (recall_in_range _ st Hr) as (entry & Hentry & ->).
    exists entry. split; [exact Hentry | reflexivity].
  - change (pressRepeatedly (S (S k)) handleArrowUp st)
      with (match handleArrowUp st with
            | Some st' => pressRepeatedly (S k) handleArrowUp st'
            | None => None
            end).
    unfold handleArrowUp at 1.
    destruct (Nat.ltb_spec 0 (length (history st))); [|lia].
    destruct (Z.eqb_spec (historyIndex st) (-1)); [lia|].
    assert (Hr : (0 <= Z.max 0 (historyIndex st - 1) < Z.of_nat (length (history st)))%Z) by lia.
    destruct (recall_in_range _ st Hr) as (first & _ & ->).
    destruct (IH (setInputValue first (setHistoryIndex (Z.max 0 (historyIndex st - 1)) st)) Hr)
      as (entry & Hentry & Hpress).
    cbn [history historyIndex setInputValue setHistoryIndex] in Hentry, Hpress.
    replace (Z.max 0 (Z.max 0 (historyIndex st - 1) - Z.of_nat (S k)))
      with (Z.max 0 (historyIndex st - Z.of_nat (S (S k)))) in Hentry, Hpress by lia.
    exists entry. split; [exact Hentry|]. rewrite Hpress. reflexivity.
Qed.

(** From a fresh cursor, pressing ArrowUp [k + 1] times walks back through
    the history from its newest entry and stops at the oldest: the cursor
    is [max 0 (n - 1 - k)], the input field shows that entry, and nothing
    else changes. *)
Theorem arrowUp_walks_back (k : nat) (st : AppState) :
  historyIndex st = (-1)%Z -> 0 < length (history st) ->
  let cursor := Z.max 0 (Z.of_nat (length (history st)) - 1 - Z.of_nat k) in
  exists entry,
    entryAt (history st) cursor = Some entry
    /\ pressRepeatedly (S k) handleArrowUp st
       = Some (setInputValue entry (setHistoryIndex cursor st)).
Proof.
  intros Hfresh Hpos cursor.
  assert (Hlast : (0 <= Z.of_nat (length (history st)) - 1
                   < Z.of_nat (length (history st)))%Z) by lia.
  assert (Hfirst : exists first,
             entryAt (history st) (Z.of_nat (length (history st)) - 1) = Some first
             /\ handleArrowUp st
                = Some (setInputValue first
                          (setHistoryIndex (Z.of_nat (length (history st)) - 1) st))).
  { unfold handleArrowUp. destruct (Nat.ltb_spec 0 (length (history st))); [|lia].
    rewrite Hfresh. cbn [Z.eqb]. now apply recall_in_range. }
  destruct Hfirst as (first & Hentry & Hup).
  destruct k as [|k].
  - exists first. unfold cursor. replace (Z.max 0 _) with (Z.of_nat (length (history st)) - 1)%Z by lia.
    split; [exact Hentry|]. cbn [pressRepeatedly]. now rewrite Hup.
  - change (pressRepeatedly (S (S k)) handleArrowUp st)
      with (match handleArrowUp st with
            | Some st' => pressRepeatedly (S k) handleArrowUp st'
            | None => None
            end).
    rewrite Hup.
    destruct (arrowUp_from_entry k
                (setInputValue first
                   (setHistoryIndex (Z.of_nat (length (history st)) - 1) st)) Hlast)
      as (entry & Hentry' & Hpress).
    cbn [history historyIndex setInputValue setHistoryIndex] in Hentry', Hpress.
    replace (Z.max 0 (Z.of_nat (length (history st)) - 1 - Z.of_nat (S k)))
      with cursor in Hentry', Hpress by (unfold cursor; lia).
    exists entry. split; [exact Hentry'|]. rewrite Hpress. reflexivity.
Qed.

(** ArrowDown after ArrowUp.  From a fresh cursor the pair leaves the
    cursor fresh and the input field empty: what had been typed is not
    brought back.  From a cursor on an entry other than the oldest, the
    pair puts the cursor back and shows the stored entry. *)
Theorem arrowDown_after_arrowUp (st : AppState) :
  0 < length (history st) ->
  (historyIndex st = (-1)%Z ->
   exists up, handleArrowUp st = Some up
              /\ handleArrowDown up = Some (setInputValue "" st))
  /\ ((0 < historyIndex st < Z.of_nat (length (history st)))%Z ->
      exists up entry,
        handleArrowUp st = Some up
        /\ entryAt (history st) (historyIndex st) = Some entry
        /\ handleArrowDown up = Some (setInputValue entry st)).
Proof.
  intros Hpos. split.
  - intros Hfresh.
    assert (Hlast : (0 <= Z.of_nat (length (history st)) - 1
                     < Z.of_nat (length (history st)))%Z) by lia.
    destruct (recall_in_range _ st Hlast) as (first & _ & Hrecall).
    eexists. split.
    + unfold handleArrowUp. destruct (Nat.ltb_spec 0 (length (history st))); [|lia].
      rewrite Hfresh. cbn [Z.eqb]. exact Hrecall.
    + unfold handleArrowDown.
      cbn [history historyIndex setInputValue setHistoryIndex].
      destruct (Z.eqb_spec (Z.of_nat (length (history st)) - 1) (-1)); [lia|].
      cbn [negb]. rewrite Z.min_l by lia. rewrite Z.eqb_refl. cbn [andb].
      destruct st; simpl in *; subst; reflexivity.
  - intros Hin.
    assert (Hprev : (0 <= Z.max 0 (historyIndex st - 1)
                     < Z.of_nat (length (history st)))%Z) by lia.
    destruct (recall_in_range _ st Hprev) as (prev & _ & Hrecall).
    assert (Hhere : (0 <= historyIndex st < Z.of_nat (length (history st)))%Z) by lia.
    destruct (entryAt_in_range (history st) _ Hhere) as [entry Hentry].
    eexists _, entry. split; [|split; [exact Hentry|]].
    + unfold handleArrowUp. destruct (Nat.ltb_spec 0 (length (history st))); [|lia].
      destruct (Z.eqb_spec (historyIndex st) (-1)); [lia|]. exact Hrecall.
    + unfold handleArrowDown.
      cbn [history historyIndex setInputValue setHistoryIndex].
      destruct (Z.eqb_spec (Z.max 0 (historyIndex st - 1)) (-1)); [lia|].
      cbn [negb].
      replace (Z.min (Z.of_nat (length (history st)) - 1)
                 (Z.max 0 (historyIndex st - 1) + 1)) with (historyIndex st) by lia.
      destruct (Z.eqb_spec (Z.max 0 (historyIndex st - 1))
                  (Z.of_nat (length (history st)) - 1)) as [Heq | _]; [lia|].
      rewrite andb_false_r.
      unfold recall. cbn [history setInputValue setHistoryIndex].
      rewrite Hentry. cbn [option_map].
      destruct st; simpl in *; reflexivity.
Qed.

End Recall.

(** ** The life of a reply *)

Section Replies.

Import App Spec.

Variable executeFileSystemCommand : string -> string -> option FsResult.

Lemma ticks_consuming (n : nat) :
  forall st, consuming st -> consuming (ticks n st).
Proof.
  induction n as [|n IH]; intros st Hst; simpl; [exact Hst|].
  apply IH. now apply onInterval_consuming.
Qed.

(** While the handler is still reading the stream, the typewriter never
    ends the reply, however often the timer fires on an empty buffer: the
    prompt stays locked, the interval stays installed, and a submission is
    ignored. *)
Theorem open_source_keeps_prompt_locked
    (userText : string) (st0 : AppState) (evs : list StreamingEvent) (n : nat) :
  let st := ticks n (session userText st0 evs None) in
  isProcessing st = true
  /\ intervalInstalled st = true
  /\ sourceActive st = true
  /\ handleSendMessage executeFileSystemCommand st = (st, []).
Proof.
  intros st.
  destruct (sendToAi_consuming userText st0) as (Hc & _ & _).
  destruct (runStreaming_consuming evs _ Hc) as [Hrun _].
  pose proof (ticks_consuming n _ Hrun) as [[Hinst _] Hnet].
  change (ticks n (runStreaming evs (fst (sendToAiBranch userText st0)))) with st in *.
  assert (Hbusy : isProcessing st = true).
  { unfold intervalInstalled in Hinst. now apply andb_true_iff in Hinst. }
  repeat split; try assumption.
  now apply busy_ignores_submission.
Qed.


Lemma updateStreaming_idle (f : Message -> Message) (msgs : list Message) :
  (forall m, lastMessage msgs = Some m -> isStreaming m = false) ->
  updateStreaming f msgs = msgs.
Proof.
  intros Hlast. unfold updateStreaming.
  destruct (lastMessage msgs) as [m|]; [|reflexivity].
  now rewrite (Hlast m eq_refl).
Qed.

Lemma onInterval_without_placeholder (st : AppState) :
  (forall m, lastMessage (messages st) = Some m -> isStreaming m = false) ->
  messages (onInterval st) = messages st
  /\ (intervalInstalled st = true ->
      String.length (pending (onInterval st))
      = String.length (pending st) - charsToTake (String.length (pending st))).
Proof.
  intros Hlast. unfold onInterval, pending.
  destruct (intervalInstalled st); [|split; [reflexivity | discriminate]].
  unfold tick.
  destruct (streamingBuffer st) as [|c buf] eqn:Hbuf.
  - simpl. destruct (isNetworkStreaming st); simpl.
    + rewrite Hbuf. split; reflexivity.
    + rewrite Hbuf. split; [now apply updateStreaming_idle | reflexivity].
  - cbn [String.length Nat.ltb Nat.leb fst messages setMessages setStreamingBuffer
         streamingBuffer].
    split; [now apply updateStreaming_idle|]. intros _. apply length_sliceFrom.
Qed.

(** When the last message of the log is not the streaming placeholder,
    because another message was added after it, the timer goes on taking
    characters from the buffer at the usual pace and shows none of them:
    the log never changes again, whatever arrives afterwards. *)
Theorem overtaken_reply_is_never_shown (st : AppState) (n : nat) :
  (forall m, lastMessage (messages st) = Some m -> isStreaming m = false) ->
  messages (ticks n st) = messages st
  /\ (forall chunkText,
        messages (ticks n (appendChunk chunkText st)) = messages st)
  /\ (intervalInstalled st = true -> pending st <> "" ->
      String.length (pending (onInterval st)) < String.length (pending st)).
Proof.
  intros Hlast.
  assert (Hticks : forall k s,
             (forall m, lastMessage (messages s) = Some m -> isStreaming m = false) ->
             messages (ticks k s) = messages s).
  { induction k as [|k IH]; intros s Hs; simpl; [reflexivity|].
    destruct (onInterval_without_placeholder s Hs) as [Hm _].
    rewrite IH; [exact Hm|]. now rewrite Hm. }
  split; [now apply Hticks|]. split.
  - intros chunkText. now rewrite Hticks.
  - intros Hinst Hne.
    destruct (onInterval_without_placeholder st Hlast) as [_ Hlen].
    rewrite (Hlen Hinst).
    assert (Hpos : 0 < String.length (pending st))
      by (destruct (pending st); [contradiction | simpl; lia]).
    pose proof (charsToTake_bounds _ Hpos) as Hb. lia.
Qed.

End Replies.

(** ** The audio wrapper *)

Section AudioFacts.

Import Spec.

Lemma contextsCreated_app (a b : list Audio.Request) :
  contextsCreated (a ++ b) = contextsCreated a + contextsCreated b.
Proof. unfold contextsCreated. now rewrite filter_app, length_app. Qed.

Lemma call_spec (c : Audio.Call) (s : Audio.State) :
  gainFollowsMute s ->
  gainFollowsMute (fst (Audio.call c s))
  /\ (Audio.audioCtx s = true -> Audio.audioCtx (fst (Audio.call c s)) = true)
  /\ contextsCreated (snd (Audio.call c s))
     = (if Audio.audioCtx s then 0
        else if Audio.audioCtx (fst (Audio.call c s)) then 1 else 0).
Proof.
  unfold gainFollowsMute. destruct s as [ctx gain muted]. cbn [Audio.audioCtx
    Audio.masterGain Audio.isMuted]. intros ->.
  destruct c as [m | sound suspended].
  - destruct ctx, m; repeat split; solve [reflexivity | intros H; discriminate H].
  - destruct sound, ctx, muted, suspended; repeat split;
      solve [reflexivity | intros H; discriminate H].
Qed.

Lemma run_spec (calls : list Audio.Call) :
  forall s,
    gainFollowsMute s ->
    gainFollowsMute (fst (Audio.run calls s))
    /\ (Audio.audioCtx s = true -> Audio.audioCtx (fst (Audio.run calls s)) = true)
    /\ contextsCreated (snd (Audio.run calls s))
       = (if Audio.audioCtx s then 0
          else if Audio.audioCtx (fst (Audio.run calls s)) then 1 else 0).
Proof.
  induction calls as [|c calls IH]; intros s Hgain.
  - simpl. repeat split; auto. now destruct (Audio.audioCtx s).
  - cbn [Audio.run].
    destruct (call_spec c s Hgain) as (Hg1 & Hkeep1 & Hcount1).
    destruct (Audio.call c s) as [s1 requests1]. cbn [fst snd] in *.
    destruct (IH s1 Hg1) as (Hg2 & Hkeep2 & Hcount2).
    destruct (Audio.run calls s1) as [s2 requests2]. cbn [fst snd] in *.
    split; [exact Hg2|]. split; [auto|].
    rewrite contextsCreated_app, Hcount1, Hcount2.
    destruct (Audio.audioCtx s) eqn:Hctx.
    + now rewrite (Hkeep1 eq_refl).
    + destruct (Audio.audioCtx s1) eqn:Hctx1; [now rewrite (Hkeep2 eq_refl) | reflexivity].
Qed.

(** From the first call on, whatever is asked of the wrapper and in
    whatever order: the master gain node exists exactly when the context
    does, so that the oscillators always find it; its value is 0 when muted
    and 0.1 otherwise; and the context is created once, by the first sound
    that is not muted, and never again. *)
Theorem audio_gain_follows_mute (calls : list Audio.Call) :
  let s := fst (Audio.run calls Audio.initial) in
  let requests := snd (Audio.run calls Audio.initial) in
  gainFollowsMute s
  /\ (Audio.audioCtx s = true <-> Audio.masterGain s <> None)
  /\ contextsCreated requests = (if Audio.audioCtx s then 1 else 0).
Proof.
  intros s requests.
  destruct (run_spec calls Audio.initial eq_refl) as (Hg & _ & Hcount).
  fold s in Hg, Hcount. fold requests in Hcount.
  split; [exact Hg|]. split; [|exact Hcount].
  unfold gainFollowsMute in Hg. rewrite Hg.
  destruct (Audio.audioCtx s); split; intros; congruence.
Qed.

(** While the wrapper is muted, sounds ask nothing of the Web Audio API and
    change nothing: no oscillator is started and no context is created, so
    a program muted before its first sound never opens an audio context. *)
Theorem muted_sounds_do_nothing (calls : list Audio.Call) (s : Audio.State) :
  Audio.isMuted s = true -> forallb isPlay calls = true ->
  Audio.run calls s = (s, []).
Proof.
  intros Hmuted. induction calls as [|c calls IH]; intros Hplays; [reflexivity|].
  cbn [forallb] in Hplays. apply andb_true_iff in Hplays as [Hc Hrest].
  cbn [Audio.run]. destruct c as [m | sound suspended]; [discriminate|].
  assert (Hcall : Audio.call (Audio.CallPlay sound suspended) s = (s, [])).
  { destruct sound; simpl; unfold Audio.playBootSound, Audio.playKeystrokeSound,
      Audio.playIncomingDataSound; now rewrite Hmuted. }
  rewrite Hcall, (IH Hrest). reflexivity.
Qed.

End AudioFacts.

(** ** The chat service, the header buttons and the prompt *)

Section ShellFacts.

Import Types App Spec Shell.

Lemma getChatSession_spec (apiKey : option string) (s : GeminiService.State) :
  sessionMatchesMode s ->
  let s1 := fst (fst (GeminiService.getChatSession apiKey s)) in
  let chat := snd (fst (GeminiService.getChatSession apiKey s)) in
  GeminiService.chatSession s1 = Some chat
  /\ GeminiService.currentMode s1 = GeminiService.currentMode s
  /\ GeminiService.systemInstruction chat
     = instructionFor (GeminiService.currentMode s)
  /\ sessionMatchesMode s1.
Proof.
  unfold sessionMatchesMode, GeminiService.getChatSession. intros Hmatch.
  destruct (GeminiService.chatSession s) as [chat|] eqn:Hsession.
  - cbn [fst snd]. rewrite Hsession. repeat split; auto.
  - unfold GeminiService.getAiClient.
    destruct (GeminiService.ai s) as [client|]; cbn [fst snd GeminiService.chatSession
      GeminiService.currentMode GeminiService.systemInstruction];
      (split; [reflexivity|]); (split; [reflexivity|]);
      (split; [now destruct (GeminiService.currentMode s)|]);
      intros chat [= <-]; now destruct (GeminiService.currentMode s).
Qed.

Lemma send_state (apiKey : option string) (message : string)
    (failure : option Thrown) (s : GeminiService.State) :
  fst (fst (GeminiService.sendMessageToGeminiStream apiKey message failure s))
  = fst (fst (GeminiService.getChatSession apiKey s)).
Proof.
  unfold GeminiService.sendMessageToGeminiStream.
  now destruct (GeminiService.getChatSession apiKey s) as [[s1 chat] requests].
Qed.

Lemma play_keeps_mute (sound : Audio.Sound) (suspended : bool) (s : Audio.State) :
  Audio.isMuted (fst (Audio.call (Audio.CallPlay sound suspended) s)) = Audio.isMuted s.
Proof.
  destruct s as [ctx gain muted].
  destruct sound, muted, ctx, suspended; reflexivity.
Qed.

Lemma step_coherent (sh : Shell) (ev : Event) :
  shellCoherent sh -> shellCoherent (step sh ev).
Proof.
  intros (Hmode & Hmute & Hsession & Hgain).
  destruct ev as [| | | sound suspended | apiKey message failure];
    unfold shellCoherent; cbn [step toggleTheme toggleMode handleToggleMute
      chatMode isMuted gemini audio].
  - repeat split; assumption.
  - repeat split; try assumption. intros chat H. discriminate H.
  - repeat split; try assumption.
    apply (call_spec (Audio.CallToggleMute (negb (isMuted sh))) _ Hgain).
  - rewrite play_keeps_mute. repeat split; try assumption.
    apply (call_spec (Audio.CallPlay sound suspended) _ Hgain).
  - rewrite send_state.
    destruct (getChatSession_spec apiKey _ Hsession) as (_ & Hcur & _ & Hs1).
    cbv zeta in Hcur, Hs1. rewrite Hcur. repeat split; assumption.
Qed.

Lemma systemCheck_coherent (apiKey : option string) :
  shellCoherent (systemCheck apiKey initialShell).
Proof.
  unfold systemCheck. destruct (match apiKey with Some _ => _ | None => _ end);
    repeat split; try reflexivity; intros chat H; discriminate H.
Qed.

(** Whatever the buttons clicked, the sounds played and the remote calls
    made since booting, the header and the services agree: the service's
    current mode is the mode the header shows, the wrapper's mute flag is
    the one the header shows, and the chat that the next remote call talks
    to carries the system prompt of the mode on display. *)
Theorem persona_follows_displayed_mode
    (bootKey : option string) (evs : list Event) (apiKey : option string) :
  let sh := runEvents evs (systemCheck bootKey initialShell) in
  let chat := snd (fst (GeminiService.getChatSession apiKey (gemini sh))) in
  GeminiService.currentMode (gemini sh) = chatMode sh
  /\ Audio.isMuted (audio sh) = isMuted sh
  /\ gainFollowsMute (audio sh)
  /\ GeminiService.systemInstruction chat = instructionFor (chatMode sh).
Proof.
  intros sh chat.
  assert (Hco : shellCoherent sh).
  { unfold sh, runEvents. generalize (systemCheck_coherent bootKey).
    generalize (systemCheck bootKey initialShell). 
    induction evs as [|ev evs IH]; intros sh0 H0; simpl; [exact H0|].
    apply IH. now apply step_coherent. }
  destruct Hco as (Hmode & Hmute & Hsession & Hgain).
  destruct (getChatSession_spec apiKey _ Hsession) as (_ & _ & Hinstr & _).
  cbv zeta in Hinstr. fold chat in Hinstr.
  repeat split; try (symmetry; assumption); try assumption.
  now rewrite Hmode.
Qed.

(** Remote calls that follow one another without a click on the mode
    button talk to one chat: the second call creates neither a client nor
    a chat, and hands its message to the chat of the first. *)
Theorem consecutive_calls_share_chat
    (key1 key2 : option string) (message1 message2 : string)
    (failure1 failure2 : option Thrown) (s : GeminiService.State) :
  let first := GeminiService.sendMessageToGeminiStream key1 message1 failure1 s in
  let second :=
    GeminiService.sendMessageToGeminiStream key2 message2 failure2 (fst (fst first)) in
  let chat := snd (fst (GeminiService.getChatSession key1 s)) in
  fst (fst second) = fst (fst first)
  /\ In (GeminiService.SendMessageStream chat message1) (snd first)
  /\ snd second
     = (GeminiService.SendMessageStream chat message2
        :: match failure2 with
           | Some _ => [GeminiService.ConsoleError]
           | None => []
           end)
  /\ snd (fst second) = failure2.
Proof.
  cbv zeta. unfold GeminiService.sendMessageToGeminiStream, GeminiService.getChatSession.
  destruct (GeminiService.chatSession s) as [chat|] eqn:Hsession.
  - cbn [fst snd]. rewrite Hsession. cbn [fst snd app].
    repeat split; try reflexivity. now left.
  - unfold GeminiService.getAiClient.
    destruct (GeminiService.ai s) as [client|];
      cbn [fst snd GeminiService.chatSession app];
      repeat split; try reflexivity;
      apply in_or_app; right; now left.
Qed.

(** Every click on the mode button discards the chat session: the next
    remote call creates a new chat, with the system prompt of the new mode.
    Two clicks bring the mode back, but the conversation starts afresh and
    the log has gained the two announcements, each naming the mode as the
    header button does. *)
Theorem mode_click_starts_new_chat (sh : Shell) (apiKey : option string) :
  let other mode := match mode with Types.terminal => assistant | assistant => Types.terminal end in
  let next := GeminiService.getChatSession apiKey (gemini (toggleMode sh)) in
  chatMode (toggleMode sh) = other (chatMode sh)
  /\ In (GeminiService.CreateChat (snd (fst next))) (snd next)
  /\ GeminiService.systemInstruction (snd (fst next))
     = instructionFor (chatMode (toggleMode sh))
  /\ chatMode (toggleMode (toggleMode sh)) = chatMode sh
  /\ GeminiService.chatSession (gemini (toggleMode (toggleMode sh))) = None
  /\ messages (app (toggleMode (toggleMode sh)))
     = (messages (app sh)
        ++ [modeAnnouncement (other (chatMode sh)); modeAnnouncement (chatMode sh)])%list
  /\ (forall mode,
        exists rest,
          text (modeAnnouncement mode)
          = "SWITCHING SYSTEM TO: " ++ Header.modeDisplayName mode ++ "..." ++ rest).
Proof.
  cbv zeta. split; [reflexivity|].
  split.
  { unfold toggleMode. cbn [gemini].
    destruct (gemini sh) as [[client|] session mode]; simpl;
      [now left | apply in_or_app; right; now left]. }
  split.
  { unfold toggleMode. cbn [gemini chatMode].
    destruct (gemini sh) as [[client|] session mode]; simpl;
      now destruct (chatMode sh). }
  split; [simpl; now destruct (chatMode sh)|].
  split; [reflexivity|].
  split.
  { simpl. unfold push. rewrite <- app_assoc. now destruct (chatMode sh). }
  intros mode. destruct mode; eexists; reflexivity.
Qed.

Lemma runStreaming_without_placeholder (evs : list StreamingEvent) :
  forall st,
    (forall m, lastMessage (messages st) = Some m -> isStreaming m = false) ->
    messages (runStreaming evs st) = messages st.
Proof.
  induction evs as [|ev evs IH]; intros st Hlast; [reflexivity|].
  change (runStreaming (ev :: evs) st) with (runStreaming evs (streamingStep st ev)).
  destruct ev as [chunkText|]; cbn [streamingStep].
  - now rewrite IH.
  - destruct (onInterval_without_placeholder st Hlast) as [Hm _].
    rewrite IH; [exact Hm|]. now rewrite Hm.
Qed.

(** A click on the mode button while a reply is being typed out freezes
    the reply: the announcement becomes the last message of the log, and
    from then on neither arriving chunks nor the timer change the log, while
    the timer keeps emptying the buffer. *)
Theorem mode_click_freezes_reply (sh : Shell) (evs : list StreamingEvent) :
  let clicked := app (toggleMode sh) in
  messages (runStreaming evs clicked) = messages clicked
  /\ messages clicked
     = (messages (app sh)
        ++ [modeAnnouncement
              (match chatMode sh with Types.terminal => assistant | assistant => Types.terminal end)])%list
  /\ (intervalInstalled (app sh) = true -> pending (app sh) <> "" ->
      String.length (pending (onInterval clicked)) < String.length (pending (app sh))).
Proof.
  intros clicked.
  assert (Hlast : forall m, lastMessage (messages clicked) = Some m -> isStreaming m = false).
  { unfold clicked, toggleMode. cbn [app messages setMessages]. unfold push.
    intros m. rewrite lastMessage_push. intros [= <-]. reflexivity. }
  split; [now apply runStreaming_without_placeholder|].
  split; [reflexivity|].
  intros Hinst Hne.
  destruct (onInterval_without_placeholder clicked Hlast) as [_ Hlen].
  change (pending clicked) with (pending (app sh)) in Hlen.
  rewrite (Hlen Hinst).
  assert (Hpos : 0 < String.length (pending (app sh)))
    by (destruct (pending (app sh)); [contradiction | simpl; lia]).
  pose proof (charsToTake_bounds _ Hpos). lia.
Qed.

(** The prompt shows the home directory as a tilde: a path that starts
    with [/home/operator] is shown with exactly that prefix replaced, any
    other path is shown whole, and the assistant mode has a fixed prompt. *)
Theorem prompt_abbreviates_home (path rest : string) :
  promptText Types.terminal ("/home/operator" ++ rest) = "root@eos ~" ++ rest ++ " #"
  /\ (Js.startsWith "/home/operator" path = false ->
      promptText Types.terminal path = "root@eos " ++ path ++ " #")
  /\ promptText assistant path = "gemini@core ~ >".
Proof.
  split; [|split; [|reflexivity]].
  - unfold promptText.
    replace (Js.startsWith "/home/operator" ("/home/operator" ++ rest)) with true
      by (symmetry; apply prefix_append).
    reflexivity.
  - intros Hno. unfold promptText. now rewrite Hno.
Qed.

End ShellFacts.

(** ** Inline formatting of messages *)

Section MarkupFacts.

Import Spec MessageItem.

Lemma lacks_app (c : ascii) (a b : string) :
  lacks c (a ++ b) = lacks c a && lacks c b.
Proof.
  induction a as [|x a IH]; simpl; [reflexivity|].
  rewrite IH. now rewrite andb_assoc.
Qed.

Lemma replaceChar_app (c : ascii) (by_ a b : string) :
  replaceChar c by_ (a ++ b) = replaceChar c by_ a ++ replaceChar c by_ b.
Proof.
  induction a as [|x a IH]; simpl; [reflexivity|].
  destruct (Ascii.eqb x c); rewrite IH; [now rewrite append_assoc | reflexivity].
Qed.

Lemma escapeHtml_app (a b : string) :
  escapeHtml (a ++ b) = escapeHtml a ++ escapeHtml b.
Proof. unfold escapeHtml. now rewrite !replaceChar_app. Qed.

Lemma escapeHtml_char (c : ascii) : escapeHtml (String c "") = escapeChar c.
Proof.
  unfold escapeHtml, escapeChar. cbn [replaceChar].
  destruct (Ascii.eqb_spec c "&") as [-> | Hamp]; [reflexivity|].
  cbn [replaceChar].
  destruct (Ascii.eqb_spec c "<") as [-> | Hlt]; [reflexivity|].
  cbn [replaceChar].
  destruct (Ascii.eqb_spec c ">") as [-> | Hgt]; reflexivity.
Qed.

Lemma escapeChar_angleFree (c : ascii) :
  lacks "<" (escapeChar c) = true /\ lacks ">" (escapeChar c) = true.
Proof.
  unfold escapeChar.
  destruct (Ascii.eqb_spec c "&"); [split; reflexivity|].
  destruct (Ascii.eqb_spec c "<") as [|Hlt]; [split; reflexivity|].
  destruct (Ascii.eqb_spec c ">") as [|Hgt]; [split; reflexivity|].
  simpl. split; rewrite andb_true_r; apply negb_true_iff; now apply Ascii.eqb_neq.
Qed.

Lemma escapeEach_angleFree (text : string) :
  lacks "<" (escapeEach text) = true /\ lacks ">" (escapeEach text) = true.
Proof.
  induction text as [|c text [IHlt IHgt]]; [split; reflexivity|].
  cbn [escapeEach]. rewrite !lacks_app, IHlt, IHgt.
  destruct (escapeChar_angleFree c) as [-> ->]. split; reflexivity.
Qed.

Lemma escapeHtml_each (text : string) : escapeHtml text = escapeEach text.
Proof.
  induction text as [|c text IH]; [reflexivity|].
  change (String c text) with (String c "" ++ text).
  rewrite escapeHtml_app, escapeHtml_char, IH. reflexivity.
Qed.

(** The three replacements, made one after the other over the whole text,
    come to escaping each character once: the ampersand written for a
    bracket is not escaped again, and no bracket is left. *)
Theorem escapeHtml_escapes_each_once (text : string) :
  escapeHtml text = escapeEach text
  /\ lacks "<" (escapeHtml text) = true
  /\ lacks ">" (escapeHtml text) = true.
Proof.
  split; [apply escapeHtml_each|]. rewrite escapeHtml_each.
  apply escapeEach_angleFree.
Qed.

Lemma startsWith_split (delim s : string) :
  Js.startsWith delim s = true ->
  s = delim ++ Js.sliceFrom (String.length delim) s.
Proof.
  unfold Js.startsWith. revert s.
  induction delim as [|d delim IH]; intros s H; [reflexivity|].
  destruct s as [|c s]; [discriminate|]. simpl in H.
  destruct (ascii_dec d c) as [-> | _]; [|discriminate].
  simpl. f_equal. now apply IH.
Qed.

Lemma closing_spec (delim : string) (s : string) :
  forall inner rest,
    closing delim s = Some (inner, rest) -> s = inner ++ delim ++ rest.
Proof.
  induction s as [|c s IH]; intros inner rest H.
  - cbn [closing] in H. destruct (Js.startsWith delim "") eqn:Hpre; [|discriminate].
    injection H as <- <-. now apply startsWith_split.
  - cbn [closing] in H. destruct (Js.startsWith delim (String c s)) eqn:Hpre.
    + injection H as <- <-. now apply startsWith_split.
    + destruct (isLineTerminator c); [discriminate|].
      destruct (closing delim s) as [[inner' rest']|]; [|discriminate].
      injection H as <- <-. simpl. f_equal. now apply IH.
Qed.

Lemma TagSafe_plain (a s : string) :
  lacks "<" a = true -> lacks ">" a = true -> TagSafe s -> TagSafe (a ++ s).
Proof.
  induction a as [|c a IH]; intros Hlt Hgt Hs; [exact Hs|].
  simpl in Hlt, Hgt. apply andb_true_iff in Hlt as [Hc1 Hlt].
  apply andb_true_iff in Hgt as [Hc2 Hgt].
  apply negb_true_iff, Ascii.eqb_neq in Hc1.
  apply negb_true_iff, Ascii.eqb_neq in Hc2.
  simpl. apply TagSafe_char; auto.
Qed.

Lemma TagSafe_app (a b : string) : TagSafe a -> TagSafe b -> TagSafe (a ++ b).
Proof.
  intros Ha Hb. induction Ha as [|c s Hlt Hgt Hs IH | tag s Hin Hs IH].
  - exact Hb.
  - simpl. now apply TagSafe_char.
  - rewrite append_assoc. now apply TagSafe_tag.
Qed.

Lemma bold_is_safe (fuel : nat) :
  forall s,
    lacks "<" s = true -> lacks ">" s = true ->
    TagSafe (replaceDelimited fuel "**" strongOpen strongClose s).
Proof.
  induction fuel as [|fuel IH]; intros s Hlt Hgt.
  - simpl. rewrite <- (append_nil_r s). apply TagSafe_plain; auto. constructor.
  - destruct s as [|c s]; [constructor|].
    cbn [replaceDelimited].
    assert (Hcopy : TagSafe (String c (replaceDelimited fuel "**" strongOpen strongClose s))).
    { simpl in Hlt, Hgt. apply andb_true_iff in Hlt as [Hc1 Hlt].
      apply andb_true_iff in Hgt as [Hc2 Hgt].
      apply negb_true_iff, Ascii.eqb_neq in Hc1.
      apply negb_true_iff, Ascii.eqb_neq in Hc2.
      apply TagSafe_char; auto. }
    destruct (Js.startsWith "**" (String c s)) eqn:Hpre; [|exact Hcopy].
    destruct (closing "**" (Js.sliceFrom (String.length "**") (String c s)))
      as [[inner rest]|] eqn:Hclose; [|exact Hcopy].
    apply startsWith_split in Hpre. apply closing_spec in Hclose.
    rewrite Hclose in Hpre. rewrite Hpre in Hlt, Hgt.
    rewrite !lacks_app in Hlt, Hgt.
    repeat (apply andb_true_iff in Hlt as [? Hlt]).
    repeat (apply andb_true_iff in Hgt as [? Hgt]).
    apply TagSafe_tag; [simpl; auto|].
    apply TagSafe_plain; auto.
    apply TagSafe_tag; [simpl; auto|]. now apply IH.
Qed.

Lemma split_after_prefix (d : ascii) (t : string) :
  forall a b s,
    lacks d t = true -> t ++ s = a ++ String d b ->
    exists a', a = t ++ a' /\ s = a' ++ String d b.
Proof.
  induction t as [|x t IH]; intros a b s Hlacks Heq.
  - exists a. split; [reflexivity | exact Heq].
  - simpl in Hlacks. apply andb_true_iff in Hlacks as [Hx Hlacks].
    apply negb_true_iff, Ascii.eqb_neq in Hx.
    destruct a as [|y a]; simpl in Heq; injection Heq as Hhead Htail.
    + contradiction.
    + subst y. destruct (IH a b s Hlacks Htail) as (a' & -> & ->).
      exists a'. split; reflexivity.
Qed.

Lemma tags_lack_backtick (tag : string) :
  In tag formattingTags -> lacks "`" tag = true.
Proof. intros [<- | [<- | [<- | [<- | []]]]]; reflexivity. Qed.

Lemma TagSafe_split (s : string) :
  TagSafe s ->
  forall a b, s = a ++ String "`" b -> TagSafe a /\ TagSafe b.
Proof.
  induction 1 as [|c s Hlt Hgt Hs IH | tag s Hin Hs IH]; intros a b Heq.
  - destruct a; discriminate.
  - destruct a as [|y a]; simpl in Heq; injection Heq as Hhead Htail.
    + subst. split; [constructor | exact Hs].
    + subst y. destruct (IH a b Htail) as [Ha Hb].
      split; [now apply TagSafe_char | exact Hb].
  - destruct (split_after_prefix "`" tag a b s (tags_lack_backtick tag Hin) Heq)
      as (a' & -> & Htail).
    destruct (IH a' b Htail) as [Ha Hb].
    split; [now apply TagSafe_tag | exact Hb].
Qed.

Lemma startsWith_char (d c : ascii) (s : string) :
  Js.startsWith (String d "") (String c s) = Ascii.eqb c d.
Proof.
  unfold Js.startsWith. simpl.
  destruct (ascii_dec d c) as [-> | Hne].
  - rewrite Ascii.eqb_refl. now destruct s.
  - symmetry. apply Ascii.eqb_neq. congruence.
Qed.

Lemma code_copies_plain (openTag closeTag t : string) :
  forall fuel s,
    lacks "`" t = true ->
    exists fuel',
      fuel' <= fuel - String.length t
      /\ replaceDelimited fuel "`" openTag closeTag (t ++ s)
         = t ++ replaceDelimited fuel' "`" openTag closeTag s.
Proof.
  induction t as [|x t IH]; intros fuel s Hlacks.
  - exists fuel. split; [simpl; lia | reflexivity].
  - simpl in Hlacks. apply andb_true_iff in Hlacks as [Hx Hlacks].
    destruct fuel as [|fuel].
    + exists 0. split; [simpl; lia | reflexivity].
    + destruct (IH fuel s Hlacks) as (fuel' & Hle & Heq).
      exists fuel'. split; [simpl; lia|].
      cbn [append replaceDelimited]. rewrite startsWith_char.
      apply negb_true_iff in Hx. rewrite Hx, Heq. reflexivity.
Qed.

Lemma code_is_safe (n : nat) :
  forall fuel s,
    fuel <= n -> TagSafe s ->
    TagSafe (replaceDelimited fuel "`" codeOpen codeClose s).
Proof.
  induction n as [|n IH]; intros fuel s Hfuel Hs.
  - assert (fuel = 0) by lia. subst. exact Hs.
  - destruct fuel as [|fuel]; [exact Hs|].
    destruct Hs as [|c s Hlt Hgt Hs | tag s Hin Hs].
    + constructor.
    + cbn [replaceDelimited].
      assert (Hcopy : TagSafe (String c (replaceDelimited fuel "`" codeOpen codeClose s)))
        by (apply TagSafe_char; auto; apply IH; [lia | exact Hs]).
      destruct (Js.startsWith "`" (String c s)); [|exact Hcopy].
      cbn [String.length Js.sliceFrom].
      destruct (closing "`" s) as [[inner rest]|] eqn:Hclose; [|exact Hcopy].
      apply closing_spec in Hclose.
      destruct (TagSafe_split s Hs inner rest Hclose) as [Hinner Hrest].
      apply TagSafe_tag; [simpl; auto|]. apply TagSafe_app; [exact Hinner|].
      apply TagSafe_tag; [simpl; auto|]. apply IH; [lia | exact Hrest].
    + destruct (code_copies_plain codeOpen codeClose tag (S fuel) s
                  (tags_lack_backtick tag Hin)) as (fuel' & Hle & ->).
      apply TagSafe_tag; [exact Hin|]. apply IH; [|exact Hs].
      assert (0 < String.length tag)
        by (destruct Hin as [<- | [<- | [<- | [<- | []]]]]; simpl; lia).
      lia.
Qed.

(** Whatever the text of a message, every angle bracket of the markup
    made from it belongs to one of the four tags the formatting writes:
    the text itself can put no tag into the page. *)
Theorem formatted_markup_has_only_own_tags (text : string) :
  TagSafe (formatInlineMarkdown text).
Proof.
  unfold formatInlineMarkdown, formatCode, formatBold.
  apply (code_is_safe _ _ _ (le_n _)).
  destruct (escapeEach_angleFree text) as [Hlt Hgt].
  rewrite escapeHtml_each. now apply bold_is_safe.
Qed.

Lemma length_append (a b : string) :
  String.length (a ++ b) = String.length a + String.length b.
Proof. induction a as [|x a IH]; simpl; [reflexivity | now rewrite IH]. Qed.

Lemma sliceFrom_append (a b : string) : Js.sliceFrom (String.length a) (a ++ b) = b.
Proof. induction a as [|x a IH]; simpl; [now destruct b | exact IH]. Qed.

Lemma escapeEach_unmarked (s : string) :
  lacks "&" s = true -> lacks "<" s = true -> lacks ">" s = true ->
  escapeEach s = s.
Proof.
  induction s as [|c s IH]; intros Hamp Hlt Hgt; [reflexivity|].
  simpl in Hamp, Hlt, Hgt.
  apply andb_true_iff in Hamp as [Hc1 Hamp].
  apply andb_true_iff in Hlt as [Hc2 Hlt].
  apply andb_true_iff in Hgt as [Hc3 Hgt].
  apply negb_true_iff in Hc1, Hc2, Hc3.
  cbn [escapeEach]. unfold escapeChar. rewrite Hc1, Hc2, Hc3.
  simpl. now rewrite IH.
Qed.

Lemma startsWith_other (d x : ascii) (dr s : string) :
  Ascii.eqb x d = false -> Js.startsWith (String d dr) (String x s) = false.
Proof.
  intros Hx. unfold Js.startsWith. simpl.
  destruct (ascii_dec d x) as [-> | _]; [|reflexivity].
  now rewrite Ascii.eqb_refl in Hx.
Qed.

(** Text without the first character of the delimiter is copied. *)
Lemma replaceDelimited_lacks (d : ascii) (dr openTag closeTag : string) (fuel : nat) :
  forall s,
    lacks d s = true ->
    replaceDelimited fuel (String d dr) openTag closeTag s = s.
Proof.
  induction fuel as [|fuel IH]; intros s Hlacks; [reflexivity|].
  destruct s as [|x s]; [reflexivity|].
  simpl in Hlacks. apply andb_true_iff in Hlacks as [Hx Hlacks].
  apply negb_true_iff in Hx.
  cbn [replaceDelimited]. rewrite (startsWith_other d x dr s Hx).
  now rewrite IH.
Qed.

Lemma replaceDelimited_prefix (d : ascii) (dr openTag closeTag pre : string) :
  forall fuel s,
    lacks d pre = true ->
    replaceDelimited (String.length pre + fuel) (String d dr) openTag closeTag (pre ++ s)
    = pre ++ replaceDelimited fuel (String d dr) openTag closeTag s.
Proof.
  induction pre as [|x pre IH]; intros fuel s Hlacks; [reflexivity|].
  simpl in Hlacks. apply andb_true_iff in Hlacks as [Hx Hlacks].
  apply negb_true_iff in Hx.
  cbn [String.length Nat.add append replaceDelimited].
  rewrite (startsWith_other d x dr _ Hx). now rewrite IH.
Qed.

Lemma lineTerminator_eqb (c : ascii) :
  isLineTerminator c
  = Ascii.eqb c (ascii_of_nat 10) || Ascii.eqb c (ascii_of_nat 13).
Proof. destruct c as [[] [] [] [] [] [] [] []]; reflexivity. Qed.

Lemma closing_unfold (delim s : string) :
  closing delim s
  = if Js.startsWith delim s
    then Some (EmptyString, Js.sliceFrom (String.length delim) s)
    else match s with
         | EmptyString => None
         | String c s' =>
             if isLineTerminator c then None
             else match closing delim s' with
                  | Some (inner, rest) => Some (String c inner, rest)
                  | None => None
                  end
         end.
Proof. destruct s; reflexivity. Qed.

Lemma closing_found (d : ascii) (dr inner rest : string) :
  lacks d inner = true -> singleLine inner = true ->
  closing (String d dr) (inner ++ String d dr ++ rest) = Some (inner, rest).
Proof.
  unfold singleLine. intros Hlacks Hline.
  apply andb_true_iff in Hline as [Hlf Hcr].
  induction inner as [|x inner IH].
  - change ("" ++ String d dr ++ rest) with (String d dr ++ rest).
    rewrite closing_unfold.
    replace (Js.startsWith (String d dr) (String d dr ++ rest)) with true
      by (symmetry; apply prefix_append).
    now rewrite sliceFrom_append.
  - simpl in Hlacks, Hlf, Hcr.
    apply andb_true_iff in Hlacks as [Hx Hlacks].
    apply andb_true_iff in Hlf as [Hx1 Hlf].
    apply andb_true_iff in Hcr as [Hx2 Hcr].
    apply negb_true_iff in Hx, Hx1, Hx2.
    change (String x inner ++ String d dr ++ rest)
      with (String x (inner ++ String d dr ++ rest)).
    rewrite closing_unfold, (startsWith_other d x dr _ Hx).
    rewrite lineTerminator_eqb, Hx1, Hx2. cbn [orb].
    now rewrite (IH Hlacks Hlf Hcr).
Qed.

Lemma closing_absent (d : ascii) (dr s : string) :
  lacks d s = true -> closing (String d dr) s = None.
Proof.
  induction s as [|x s IH]; intros Hlacks; [reflexivity|].
  simpl in Hlacks. apply andb_true_iff in Hlacks as [Hx Hlacks].
  apply negb_true_iff in Hx.
  cbn [closing]. rewrite (startsWith_other d x dr s Hx).
  rewrite (IH Hlacks). now destruct (isLineTerminator x).
Qed.

(** One delimited stretch between two stretches of plain text. *)
Lemma replaceDelimited_wraps (d : ascii) (dr openTag closeTag pre inner post : string) :
  lacks d pre = true -> lacks d inner = true -> singleLine inner = true ->
  lacks d post = true ->
  let s := pre ++ String d dr ++ inner ++ String d dr ++ post in
  replaceDelimited (String.length s) (String d dr) openTag closeTag s
  = pre ++ openTag ++ inner ++ closeTag ++ post.
Proof.
  intros Hpre Hinner Hline Hpost s. unfold s.
  rewrite length_append.
  rewrite (replaceDelimited_prefix d dr openTag closeTag pre _ _ Hpre).
  f_equal.
  remember (inner ++ String d dr ++ post) as tail eqn:Htail.
  cbn [append String.length replaceDelimited].
  assert (Hstart : Js.startsWith (String d dr) (String d dr ++ tail) = true)
    by apply prefix_append.
  cbn [append] in Hstart. rewrite Hstart.
  assert (Hslice : Js.sliceFrom (String.length (String d dr)) (String d dr ++ tail) = tail)
    by apply sliceFrom_append.
  cbn [append String.length] in Hslice. rewrite Hslice.
  rewrite Htail, (closing_found d dr inner post Hinner Hline).
  now rewrite (replaceDelimited_lacks d dr openTag closeTag _ post Hpost).
Qed.

Lemma unmarked_parts (s : string) :
  unmarked s = true ->
  lacks "&" s = true /\ lacks "<" s = true /\ lacks ">" s = true
  /\ lacks "*" s = true /\ lacks "`" s = true.
Proof.
  unfold unmarked. intros H.
  repeat (apply andb_true_iff in H as [H ?]). auto.
Qed.

(** Text without ampersands, angle brackets, asterisks and backticks comes
    out of the formatting as it went in. *)
Theorem unmarked_text_is_kept (text : string) :
  unmarked text = true -> formatInlineMarkdown text = text.
Proof.
  intros H. destruct (unmarked_parts text H) as (Hamp & Hlt & Hgt & Hstar & Htick).
  unfold formatInlineMarkdown, formatCode, formatBold.
  rewrite escapeHtml_each, (escapeEach_unmarked text Hamp Hlt Hgt).
  unfold strongOpen, strongClose.
  rewrite (replaceDelimited_lacks "*" "*" _ _ _ text Hstar).
  now apply replaceDelimited_lacks.
Qed.

(** A stretch of plain text on one line between two pairs of asterisks is
    wrapped in the strong tag, and between two backticks in the code tag,
    the delimiters being dropped and the text around them kept. *)
Theorem delimited_text_is_wrapped (pre inner post : string) :
  unmarked pre = true -> unmarked inner = true -> singleLine inner = true ->
  unmarked post = true ->
  formatInlineMarkdown (pre ++ "**" ++ inner ++ "**" ++ post)
  = pre ++ strongOpen ++ inner ++ strongClose ++ post
  /\ formatInlineMarkdown (pre ++ "`" ++ inner ++ "`" ++ post)
     = pre ++ codeOpen ++ inner ++ codeClose ++ post.
Proof.
  intros Hpre Hinner Hline Hpost.
  destruct (unmarked_parts pre Hpre) as (Ha1 & Hl1 & Hg1 & Hs1 & Ht1).
  destruct (unmarked_parts inner Hinner) as (Ha2 & Hl2 & Hg2 & Hs2 & Ht2).
  destruct (unmarked_parts post Hpost) as (Ha3 & Hl3 & Hg3 & Hs3 & Ht3).
  unfold formatInlineMarkdown, formatCode, formatBold. split.
  - rewrite escapeHtml_each, escapeEach_unmarked
      by (rewrite !lacks_app, ?Ha1, ?Ha2, ?Ha3, ?Hl1, ?Hl2, ?Hl3, ?Hg1, ?Hg2, ?Hg3;
          reflexivity).
    rewrite (replaceDelimited_wraps "*" "*" strongOpen strongClose pre inner post
               Hs1 Hs2 Hline Hs3).
    apply replaceDelimited_lacks.
    rewrite !lacks_app, Ht1, Ht2, Ht3. reflexivity.
  - rewrite escapeHtml_each, escapeEach_unmarked
      by (rewrite !lacks_app, ?Ha1, ?Ha2, ?Ha3, ?Hl1, ?Hl2, ?Hl3, ?Hg1, ?Hg2, ?Hg3;
          reflexivity).
    rewrite (replaceDelimited_lacks "*" "*" strongOpen strongClose)
      by (rewrite !lacks_app, Hs1, Hs2, Hs3; reflexivity).
    apply (replaceDelimited_wraps "`" "" codeOpen codeClose pre inner post
             Ht1 Ht2 Hline Ht3).
Qed.

Lemma startsWith_lacking (d : ascii) (dr s : string) :
  lacks d s = true -> Js.startsWith (String d dr) s = false.
Proof.
  destruct s as [|x s]; intros Hlacks; [reflexivity|].
  simpl in Hlacks. apply andb_true_iff in Hlacks as [Hx _].
  apply negb_true_iff in Hx. now apply startsWith_other.
Qed.

(** A marker that is not closed is shown as it was typed: a pair of
    asterisks, or a backtick, followed by plain text without its partner
    leaves the text unchanged. *)
Theorem unclosed_marker_is_kept (pre post : string) :
  unmarked pre = true -> unmarked post = true ->
  formatInlineMarkdown (pre ++ "**" ++ post) = pre ++ "**" ++ post
  /\ formatInlineMarkdown (pre ++ "`" ++ post) = pre ++ "`" ++ post.
Proof.
  intros Hpre Hpost.
  destruct (unmarked_parts pre Hpre) as (Ha1 & Hl1 & Hg1 & Hs1 & Ht1).
  destruct (unmarked_parts post Hpost) as (Ha3 & Hl3 & Hg3 & Hs3 & Ht3).
  unfold formatInlineMarkdown, formatCode, formatBold. split.
  - rewrite escapeHtml_each, escapeEach_unmarked
      by (rewrite !lacks_app, ?Ha1, ?Ha3, ?Hl1, ?Hl3, ?Hg1, ?Hg3; reflexivity).
    assert (Hbold : replaceDelimited (String.length (pre ++ "**" ++ post)) "**"
                      strongOpen strongClose (pre ++ "**" ++ post)
                    = pre ++ "**" ++ post).
    { rewrite length_append.
      rewrite (replaceDelimited_prefix "*" "*" strongOpen strongClose pre _ _ Hs1).
      f_equal. cbn [append String.length replaceDelimited Js.sliceFrom].
      replace (Js.startsWith "**" (String "*" (String "*" post))) with true
        by (symmetry; apply (prefix_append "**" post)).
      rewrite (closing_absent "*" "*" post Hs3).
      assert (Hno : Js.startsWith "**" (String "*" post) = false).
      { pose proof (startsWith_lacking "*" "" post Hs3) as Hpost'.
        unfold Js.startsWith in *. simpl. exact Hpost'. }
      rewrite Hno.
      now rewrite (replaceDelimited_lacks "*" "*" strongOpen strongClose _ post Hs3). }
    rewrite Hbold.
    apply replaceDelimited_lacks.
    rewrite !lacks_app, Ht1, Ht3. reflexivity.
  - rewrite escapeHtml_each, escapeEach_unmarked
      by (rewrite !lacks_app, ?Ha1, ?Ha3, ?Hl1, ?Hl3, ?Hg1, ?Hg3; reflexivity).
    rewrite (replaceDelimited_lacks "*" "*" strongOpen strongClose)
      by (rewrite !lacks_app, Hs1, Hs3; reflexivity).
    rewrite length_append.
    rewrite (replaceDelimited_prefix "`" "" codeOpen codeClose pre _ _ Ht1).
    f_equal. cbn [append String.length replaceDelimited Js.sliceFrom].
    rewrite startsWith_char, Ascii.eqb_refl.
    rewrite (closing_absent "`" "" post Ht3). f_equal.
    apply (replaceDelimited_lacks "`" "" codeOpen codeClose _ post Ht3).
Qed.

End MarkupFacts.

(** ** The further properties at concrete states *)

Section FurtherInstances.

Import App Spec Fixtures.

Lemma submission_clears_input_and_appends_witness :
  accepted idleClear
  /\ inputValue (send idleClear) = ""
  /\ messages (send idleClear) = [].
Proof.
  assert (Hacc : accepted idleClear) by (split; [discriminate | reflexivity]).
  split; [exact Hacc|].
  destruct (submission_clears_input_and_appends Vfs.fixtureExecute idleClear Hacc)
    as (Hinput & Hclear & _).
  split; [exact Hinput | exact (Hclear eq_refl)].
Defined.

Lemma submission_moves_path_only_on_cd_witness :
  accepted cdTyped
  /\ currentPath (send cdTyped) = "/home/operator/docs".
Proof.
  assert (Hacc : accepted cdTyped) by (split; [discriminate | reflexivity]).
  split; [exact Hacc|].
  exact (submission_moves_path_only_on_cd Vfs.fixtureExecute cdTyped Hacc).
Defined.

Lemma submission_locks_prompt_when_not_local_witness :
  accepted sudoTyped
  /\ isProcessing (send sudoTyped) = true
  /\ intervalInstalled (send sudoTyped) = false.
Proof.
  assert (Hacc : accepted sudoTyped) by (split; [discriminate | reflexivity]).
  split; [exact Hacc|].
  destruct (submission_locks_prompt_when_not_local Vfs.fixtureExecute sudoTyped Hacc)
    as (Hlocked & Hinterval & _).
  split; [exact Hlocked | exact Hinterval].
Defined.

Lemma scripted_deletion_runs_to_reboot_witness :
  accepted sudoTyped
  /\ map snd (schedule (snd (handleSendMessage Vfs.fixtureExecute sudoTyped)))
     = [600; 1200; 1800; 2400; 2900; 3500; 5000].
Proof.
  assert (Hacc : accepted sudoTyped) by (split; [discriminate | reflexivity]).
  split; [exact Hacc|].
  exact (proj1 (scripted_deletion_runs_to_reboot Vfs.fixtureExecute sudoTyped
                  Hacc eq_refl eq_refl)).
Defined.

Lemma keys_keep_history_and_cursor_witness :
  cursorValid fullHistory
  /\ length (history fullHistory) <= 50
  /\ exists st',
       pressKeys Vfs.fixtureExecute Vfs.fixtureComplete
         [ArrowUp; ArrowUp; Enter; ArrowDown; Tab] fullHistory = Some st'
       /\ cursorValid st'
       /\ length (history st') <= 50.
Proof.
  assert (Hvalid : cursorValid fullHistory) by (left; reflexivity).
  assert (Hbound : length (history fullHistory) <= 50) by (simpl; lia).
  split; [exact Hvalid|]. split; [exact Hbound|].
  exact (keys_keep_history_and_cursor Vfs.fixtureExecute Vfs.fixtureComplete
           [ArrowUp; ArrowUp; Enter; ArrowDown; Tab] fullHistory Hvalid Hbound).
Defined.

Lemma arrowUp_recalls_submission_witness :
  accepted tabTrailingBlank
  /\ exists recalled,
       handleArrowUp (send tabTrailingBlank) = Some recalled
       /\ inputValue recalled = "o ".
Proof.
  assert (Hacc : accepted tabTrailingBlank) by (split; [discriminate | reflexivity]).
  split; [exact Hacc|].
  destruct (arrowUp_recalls_submission Vfs.fixtureExecute tabTrailingBlank Hacc)
    as (recalled & Hup & Hinput & _).
  exists recalled. split; [exact Hup | exact Hinput].
Defined.

Lemma arrowUp_walks_back_witness :
  historyIndex twoRemembered = (-1)%Z
  /\ 0 < length (history twoRemembered)
  /\ exists entry,
       entryAt (history twoRemembered) 0 = Some entry
       /\ pressRepeatedly 4 handleArrowUp twoRemembered
          = Some (setInputValue entry (setHistoryIndex 0 twoRemembered)).
Proof.
  assert (Hpos : 0 < length (history twoRemembered)) by (simpl; lia).
  split; [reflexivity|]. split; [exact Hpos|].
  exact (arrowUp_walks_back 3 twoRemembered eq_refl Hpos).
Defined.

Lemma arrowDown_after_arrowUp_witness :
  0 < length (history twoRemembered)
  /\ exists up, handleArrowUp twoRemembered = Some up
                /\ handleArrowDown up = Some (setInputValue "" twoRemembered).
Proof.
  assert (Hpos : 0 < length (history twoRemembered)) by (simpl; lia).
  split; [exact Hpos|].
  exact (proj1 (arrowDown_after_arrowUp twoRemembered Hpos) eq_refl).
Defined.

Lemma overtaken_reply_is_never_shown_witness :
  (forall m, lastMessage (messages overtaken) = Some m -> isStreaming m = false)
  /\ messages (ticks 5 overtaken) = messages overtaken.
Proof.
  assert (Hlast : forall m, lastMessage (messages overtaken) = Some m ->
                            isStreaming m = false).
  { intros m Hm. vm_compute in Hm. injection Hm as <-. reflexivity. }
  split; [exact Hlast|].
  exact (proj1 (overtaken_reply_is_never_shown overtaken 5 Hlast)).
Defined.

Lemma muted_sounds_do_nothing_witness :
  Audio.isMuted mutedAudio = true
  /\ Audio.run [Audio.CallPlay Audio.KeystrokeSound true;
                Audio.CallPlay Audio.IncomingDataSound false;
                Audio.CallPlay Audio.BootSound true] mutedAudio
     = (mutedAudio, []).
Proof.
  split; [reflexivity|].
  exact (muted_sounds_do_nothing
           [Audio.CallPlay Audio.KeystrokeSound true;
            Audio.CallPlay Audio.IncomingDataSound false;
            Audio.CallPlay Audio.BootSound true] mutedAudio eq_refl eq_refl).
Defined.

Lemma unmarked_text_is_kept_witness :
  unmarked "ls -la /home" = true
  /\ MessageItem.formatInlineMarkdown "ls -la /home" = "ls -la /home".
Proof.
  split; [reflexivity|].
  exact (unmarked_text_is_kept "ls -la /home" eq_refl).
Defined.

Lemma delimited_text_is_wrapped_witness :
  MessageItem.formatInlineMarkdown ("run " ++ "**" ++ "yay -S" ++ "**" ++ " now")
  = "run " ++ MessageItem.strongOpen ++ "yay -S" ++ MessageItem.strongClose ++ " now"
  /\ MessageItem.formatInlineMarkdown ("run " ++ "`" ++ "yay -S" ++ "`" ++ " now")
     = "run " ++ MessageItem.codeOpen ++ "yay -S" ++ MessageItem.codeClose ++ " now".
Proof.
  exact (delimited_text_is_wrapped "run " "yay -S" " now"
           eq_refl eq_refl eq_refl eq_refl).
Defined.

Lemma unclosed_marker_is_kept_witness :
  MessageItem.formatInlineMarkdown ("2 " ++ "**" ++ " 3")
  = "2 " ++ "**" ++ " 3"
  /\ MessageItem.formatInlineMarkdown ("2 " ++ "`" ++ " 3") = "2 " ++ "`" ++ " 3".
Proof.
  exact (unclosed_marker_is_kept "2 " " 3" eq_refl eq_refl).
Defined.

End FurtherInstances.
